(** * VerifiedProtocol: record codec, scoring engine, reputation engine,
    and the submission / tier logic of the React frontend.

    The backend modules (ARC-4 record decoder, AI scoring engine,
    reputation engine) are not part of the sources at hand; the
    definitions marked "Modelled from the spec" follow the design
    document.  The frontend definitions follow the JSX sources
    ([SubmitPage], [VerifierPage], [ExplorerPage], [ScoreCircle]). *)

From Stdlib Require Import String Ascii ZArith List Bool Lia.
From Stdlib Require Import Reals Lra.
From Stdlib Require Import Sorting.Sorted Sorting.Permutation.
Import ListNotations.

(* ================================================================= *)
(** ** Record codec *)

Module Codec.

Open Scope Z_scope.

(** Bytes are integers in [0, 255]. *)
Definition byte := Z.
Definition bytes := list byte.

Definition is_byte (b : Z) : bool := (0 <=? b) && (b <=? 255).

(** Big-endian encoding of [x] on [n] bytes, most significant first. *)
Fixpoint be_encode (n : nat) (x : Z) : bytes :=
  match n with
  | O => []
  | S k => be_encode k (x / 256) ++ [x mod 256]
  end.

(** Big-endian decoding of a byte sequence. *)
Definition be_decode (l : bytes) : Z :=
  fold_left (fun acc b => acc * 256 + b) l 0.

(** [sub s off len]: the [len] bytes of [s] starting at [off]. *)
Definition sub (s : bytes) (off len : nat) : bytes :=
  firstn len (skipn off s).

Inductive DecodeError :=
  | TruncatedRecordError
  | InvalidOffsetError
  | Utf8DecodeError
  | FieldBoundsError.

Inductive result (A : Type) :=
  | Ok : A -> result A
  | Err : DecodeError -> result A.
Arguments Ok {A} _.
Arguments Err {A} _.

(** One attestation; strings are kept as their UTF-8 byte sequences. *)
Record SkillRecord := mkSkillRecord {
  mode : bytes;
  domain : bytes;
  score : Z;
  artifact_hash : bytes;
  timestamp : Z
}.

(** UTF-8 well-formedness (RFC 3629: no overlongs, no surrogates,
    nothing above U+10FFFF). *)
Definition in_range (lo hi b : Z) : bool := (lo <=? b) && (b <=? hi).
Definition cont (b : Z) : bool := in_range 128 191 b.

Fixpoint utf8_valid (l : bytes) : bool :=
  match l with
  | [] => true
  | b :: r =>
      if in_range 0 127 b then utf8_valid r else
      match r with
      | [] => false
      | c1 :: r1 =>
          if in_range 194 223 b then cont c1 && utf8_valid r1 else
          match r1 with
          | [] => false
          | c2 :: r2 =>
              if Z.eqb b 224 then in_range 160 191 c1 && cont c2 && utf8_valid r2
              else if in_range 225 236 b || in_range 238 239 b then
                cont c1 && cont c2 && utf8_valid r2
              else if Z.eqb b 237 then in_range 128 159 c1 && cont c2 && utf8_valid r2
              else
              match r2 with
              | [] => false
              | c3 :: r3 =>
                  if Z.eqb b 240 then
                    in_range 144 191 c1 && cont c2 && cont c3 && utf8_valid r3
                  else if in_range 241 243 b then
                    cont c1 && cont c2 && cont c3 && utf8_valid r3
                  else if Z.eqb b 244 then
                    in_range 128 143 c1 && cont c2 && cont c3 && utf8_valid r3
                  else false
              end
          end
      end
  end.

(** Size of the fixed part of the struct:
    mode_offset(2) domain_offset(2) score(8) artifact_offset(2) timestamp(8). *)
Definition head_len : nat := 22.

(** A string payload: 2-byte length prefix, then the bytes. *)
Definition encode_string (s : bytes) : bytes :=
  be_encode 2 (Z.of_nat (length s)) ++ s.

(** Modelled from the spec: the ARC-4 encoder of the smart contract
    (§4.1), struct layout with offsets measured from the struct start. *)
Definition encode_struct (r : SkillRecord) : bytes :=
  let mo := head_len in
  let dof := (mo + 2 + length (mode r))%nat in
  let ao := (dof + 2 + length (domain r))%nat in
  be_encode 2 (Z.of_nat mo) ++ be_encode 2 (Z.of_nat dof) ++
  be_encode 8 (score r) ++ be_encode 2 (Z.of_nat ao) ++
  be_encode 8 (timestamp r) ++
  encode_string (mode r) ++ encode_string (domain r) ++
  encode_string (artifact_hash r).

(** Modelled from the spec: [Encode]: the struct behind its 2-byte length. *)
Definition encode (r : SkillRecord) : bytes :=
  let s := encode_struct r in
  be_encode 2 (Z.of_nat (length s)) ++ s.

Definition encode_all (rs : list SkillRecord) : bytes :=
  concat (map encode rs).

(** Reading the string whose length prefix sits at offset [off]. *)
Definition read_string (s : bytes) (off : Z) : result bytes :=
  if Z.of_nat (length s) <? off + 2 then Err InvalidOffsetError else
  let n := be_decode (sub s (Z.to_nat off) 2) in
  if Z.of_nat (length s) <? off + 2 + n then Err InvalidOffsetError else
  Ok (sub s (Z.to_nat (off + 2)) (Z.to_nat n)).

(** Modelled from the spec: the ARC4Decoder's struct decoding.  Checks in
    order: fixed part present, offsets inside the struct, UTF-8, score. *)
Definition decode_struct (s : bytes) : result SkillRecord :=
  if (length s <? head_len)%nat then Err TruncatedRecordError else
  let mo := be_decode (sub s 0 2) in
  let dof := be_decode (sub s 2 2) in
  let sc := be_decode (sub s 4 8) in
  let ao := be_decode (sub s 12 2) in
  let ts := be_decode (sub s 14 8) in
  match read_string s mo, read_string s dof, read_string s ao with
  | Ok m, Ok d, Ok a =>
      if negb (utf8_valid m && utf8_valid d && utf8_valid a)
      then Err Utf8DecodeError
      else if 100 <? sc then Err FieldBoundsError
      else Ok (mkSkillRecord m d sc a ts)
  | Err e, _, _ => Err e
  | _, Err e, _ => Err e
  | _, _, Err e => Err e
  end.

(** One [2B length][length bytes] frame; returns the record and the rest. *)
Definition decode_frame (bs : bytes) : result (SkillRecord * bytes) :=
  match bs with
  | hi :: lo :: rest =>
      let n := be_decode [hi; lo] in
      if Z.of_nat (length rest) <? n then Err TruncatedRecordError else
      match decode_struct (firstn (Z.to_nat n) rest) with
      | Ok r => Ok (r, skipn (Z.to_nat n) rest)
      | Err e => Err e
      end
  | _ => Err TruncatedRecordError
  end.

Fixpoint decode_frames (fuel : nat) (bs : bytes) : result (list SkillRecord) :=
  match bs with
  | [] => Ok []
  | _ =>
      match fuel with
      | O => Err TruncatedRecordError
      | S f =>
          match decode_frame bs with
          | Err e => Err e
          | Ok (r, rest) =>
              match decode_frames f rest with
              | Ok rs => Ok (r :: rs)
              | Err e => Err e
              end
          end
      end
  end.

(** Modelled from the spec: [Decode]: consume frames until the blob is
    exhausted.  Each frame takes at least two bytes, so the blob length
    bounds the number of iterations. *)
Definition decode (bs : bytes) : result (list SkillRecord) :=
  decode_frames (length bs) bs.

Definition is_hex_digit (b : Z) : bool :=
  in_range 48 57 b || in_range 97 102 b || in_range 65 70 b.

(** The SkillRecord invariant of §3, plus what the 16-bit length
    fields can represent. *)
Definition valid_record (r : SkillRecord) : Prop :=
  utf8_valid (mode r) = true /\ utf8_valid (domain r) = true /\
  utf8_valid (artifact_hash r) = true /\
  0 <= score r <= 100 /\ 0 < timestamp r < 2 ^ 64 /\
  length (artifact_hash r) = 64%nat /\
  forallb is_hex_digit (artifact_hash r) = true /\
  Z.of_nat (length (encode_struct r)) < 65536.

(** A struct behind its 2-byte length: one element of the stored blob. *)
Definition frame (s : bytes) : bytes :=
  be_encode 2 (Z.of_nat (length s)) ++ s.

(** The three string offsets of a struct, as the decoder reads them. *)
Definition struct_offsets (s : bytes) : list Z :=
  [be_decode (sub s 0 2); be_decode (sub s 2 2); be_decode (sub s 12 2)].

(** Two attestations used to instantiate the codec laws. *)
Definition sample_python : SkillRecord :=
  mkSkillRecord [97; 105; 45; 103; 114; 97; 100; 101; 100] [112; 121; 116; 104; 111; 110]
    85 (repeat 48 64) 1700000000.

Definition sample_web3 : SkillRecord :=
  mkSkillRecord [97; 105; 45; 103; 114; 97; 100; 101; 100]
    [119; 101; 98; 51; 58; 100; 101; 102; 105] 62 (repeat 97 64) 1700086400.

Definition sample_python_newer : SkillRecord :=
  mkSkillRecord (mode sample_python) (domain sample_python) 85
    (artifact_hash sample_python) 1700500000.

End Codec.

(* ================================================================= *)
(** ** Reputation aggregation engine *)

Module Reputation.
Import Codec.
Open Scope R_scope.

Definition rsum (l : list R) : R := fold_right Rplus 0 l.

Definition clamp01 (x : R) : R := Rmax 0 (Rmin 1 x).

Inductive CredibilityLevel :=
  | exceptional | strong | moderate | developing | minimal.

Inductive Trend := rising | declining | stable.

Record DomainScore := mkDomainScore {
  ds_domain : bytes;
  ds_score : R;
  ds_record_count : nat;
  ds_latest_timestamp : Z;
  ds_trend : Trend
}.

Record ReputationProfile := mkProfile {
  total_reputation : R;
  credibility_level : CredibilityLevel;
  trust_index : R;
  verification_badge : bool;
  total_records : nat;
  top_domain : option bytes;
  active_since : option Z;
  domain_scores : list DomainScore
}.

Section Aggregate.

(** Evaluation time (Unix seconds) and the margin of the trend test. *)
Variable now : Z.
Variable trend_threshold : R.

(** Modelled from the spec: step 1 of §4.4, age in days and decay weight. *)
Definition age_days (r : SkillRecord) : R := IZR (now - timestamp r) / 86400.

Definition decay_weight (age : R) : R := exp (- (693 / 1000) * age / 180).

Definition record_weight (r : SkillRecord) : R := decay_weight (age_days r).

(** Modelled from the spec: step 2, the decayed weighted mean. *)
Definition weighted_score (rs : list SkillRecord) : R :=
  rsum (map (fun r => IZR (score r) * record_weight r) rs)
  / rsum (map record_weight rs).

Definition mean (xs : list R) : R := rsum xs / INR (length xs).

Definition std_dev (xs : list R) : R :=
  let m := mean xs in
  sqrt (rsum (map (fun x => (x - m) ^ 2) xs) / INR (length xs)).

Definition scores (rs : list SkillRecord) : list R := map (fun r => IZR (score r)) rs.

(** Modelled from the spec: step 3; a single record has no variance and
    gets the defined default 1. *)
Definition consistency (rs : list SkillRecord) : R :=
  if (length rs <=? 1)%nat then 1
  else 1 - Rmin 1 (std_dev (scores rs) / 30).

Definition distinct_domains (rs : list SkillRecord) : list bytes :=
  nodup (list_eq_dec Z.eq_dec) (map domain rs).

Definition distinct_domain_count (rs : list SkillRecord) : nat :=
  length (distinct_domains rs).

(** Modelled from the spec: steps 4 and 5. *)
Definition diversity (rs : list SkillRecord) : R :=
  Rmin 1 (INR (distinct_domain_count rs) / 4).

Definition volume (rs : list SkillRecord) : R :=
  Rmin 1 (INR (length rs) / 10).

Definition span_days (rs : list SkillRecord) : R :=
  fold_right (fun r acc => Rmax (age_days r) acc) 0 rs.

(** Modelled from the spec: step 6; a single record gets the defined
    default 0. *)
Definition longevity (rs : list SkillRecord) : R :=
  if (length rs <=? 1)%nat then 0
  else Rmin 1 (span_days rs / 180).

(** Modelled from the spec: step 7. *)
Definition trust_raw (rs : list SkillRecord) : R :=
  weighted_score rs / 100 * (40 / 100) + consistency rs * (20 / 100)
  + diversity rs * (10 / 100) + volume rs * (10 / 100)
  + longevity rs * (20 / 100).

(** Modelled from the spec: step 9. *)
Definition level_of (t : R) : CredibilityLevel :=
  if Rle_dec 90 t then exceptional
  else if Rle_dec 70 t then strong
  else if Rle_dec 50 t then moderate
  else if Rle_dec 30 t then developing
  else minimal.

(** The level as the profile serialises it. *)
Definition level_name (l : CredibilityLevel) : string :=
  match l with
  | exceptional => "exceptional"
  | strong => "strong"
  | moderate => "moderate"
  | developing => "developing"
  | minimal => "minimal"
  end%string.

Definition ge_bool (x y : R) : bool := if Rle_dec y x then true else false.

(** Modelled from the spec: step 10, trend of one domain's records
    (oldest first): recent third against the earlier two thirds. *)
Definition trend_of (g : list SkillRecord) : Trend :=
  let k := (length g / 3)%nat in
  if (k =? 0)%nat then stable else
  let recent := skipn (length g - k) g in
  let earlier := firstn (length g - k) g in
  let dr := weighted_score recent in
  let de := weighted_score earlier in
  if Rlt_dec (de + trend_threshold) dr then rising
  else if Rlt_dec dr (de - trend_threshold) then declining
  else stable.

Definition latest_timestamp (g : list SkillRecord) : Z :=
  fold_right (fun r acc => Z.max (timestamp r) acc) 0%Z g.

Definition domain_score (rs : list SkillRecord) (d : bytes) : DomainScore :=
  let g := filter (fun r => if list_eq_dec Z.eq_dec (domain r) d then true else false) rs in
  mkDomainScore d (weighted_score g) (length g) (latest_timestamp g) (trend_of g).

Fixpoint best_domain (l : list DomainScore) : option DomainScore :=
  match l with
  | [] => None
  | x :: xs =>
      match best_domain xs with
      | None => Some x
      | Some y => if Rlt_dec (ds_score x) (ds_score y) then Some y else Some x
      end
  end.

Definition earliest_timestamp (r0 : SkillRecord) (rs : list SkillRecord) : Z :=
  fold_right (fun r acc => Z.min (timestamp r) acc) (timestamp r0) rs.

(** Modelled from the spec: [Aggregate(records)] of §4.4, with the
    defined defaults for zero records. *)
Definition aggregate (rs : list SkillRecord) : ReputationProfile :=
  match rs with
  | [] => mkProfile 0 minimal 0 false 0 None None []
  | r0 :: rest =>
      let ws := weighted_score rs in
      let dss := map (domain_score rs) (distinct_domains rs) in
      mkProfile ws (level_of ws) (clamp01 (trust_raw rs))
        ((3 <=? length rs)%nat && ge_bool ws 50 && (1 <=? distinct_domain_count rs)%nat)
        (length rs)
        (option_map ds_domain (best_domain dss))
        (Some (earliest_timestamp r0 rest))
        dss
  end.

End Aggregate.

End Reputation.

(* ================================================================= *)
(** ** Evidence scoring engine *)

Module Scoring.
Open Scope R_scope.

Definition rsum (l : list R) : R := fold_right Rplus 0 l.

Inductive EvidenceKind := repository | certificate | project.

Inductive ScoreError := UnsupportedEvidenceKindError | InsufficientEvidenceError.

Record Signal := mkSignal {
  name : string;
  weight : R;
  raw_score : R;
  weighted_score : R;
  explanation : string
}.

Record ScoringResult := mkScoringResult {
  overall_score : R;
  domain : string;
  subdomain : option string;
  confidence : R;
  signals : list Signal;
  artifact_hash : string
}.

Inductive score_result :=
  | Scored : ScoringResult -> score_result
  | Failed : ScoreError -> score_result.

Section Engine.

(** Evidence metadata as handed over by the evidence fetcher. *)
Variable Metadata : Type.

(** A signal of a weight table: a fixed weight and an evaluator that
    returns [None] exactly when its required metadata is absent. *)
Record SignalDef := mkSignalDef {
  sd_name : string;
  sd_weight : R;
  sd_eval : Metadata -> option (R * string)
}.

Variable tables : EvidenceKind -> list SignalDef.
Variable classify : Metadata -> string * option string.
Variable hash : Metadata -> string.

Definition parse_kind (k : string) : option EvidenceKind :=
  if string_dec k "repository" then Some repository
  else if string_dec k "certificate" then Some certificate
  else if string_dec k "project" then Some project
  else None.

Definition run_signal (md : Metadata) (d : SignalDef) : option Signal :=
  match sd_eval d md with
  | None => None
  | Some (raw, expl) => Some (mkSignal (sd_name d) (sd_weight d) raw (raw * sd_weight d) expl)
  end.

Fixpoint run_signals (md : Metadata) (ds : list SignalDef) : list Signal :=
  match ds with
  | [] => []
  | d :: ds' =>
      match run_signal md d with
      | Some sg => sg :: run_signals md ds'
      | None => run_signals md ds'
      end
  end.

(** Modelled from the spec: renormalisation over the signals that ran,
    with the defined default 0 for a zero-weight set. *)
Definition renormalize (sigs : list Signal) : R :=
  let wsum := rsum (map weight sigs) in
  if Req_dec_T wsum 0 then 0 else rsum (map weighted_score sigs) / wsum.

(** Modelled from the spec: [Score(evidence_kind, evidence_metadata)] of §4.3. *)
Definition score_evidence (kind : string) (md : Metadata) : score_result :=
  match parse_kind kind with
  | None => Failed UnsupportedEvidenceKindError
  | Some k =>
      let defs := tables k in
      let sigs := run_signals md defs in
      match sigs with
      | [] => Failed InsufficientEvidenceError
      | _ =>
          let (dom, sub) := classify md in
          Scored (mkScoringResult (renormalize sigs) dom sub
                    (INR (length sigs) / INR (length defs)) sigs (hash md))
      end
  end.

End Engine.

Arguments sd_name {Metadata} _.
Arguments sd_weight {Metadata} _.
Arguments sd_eval {Metadata} _ _.

(** A sample weight table over a metadata of two parts: whether a README
    is present, and the commit history (absent when the API gave none).
    A missing README evaluates to 0; a missing history skips the signal. *)
Definition sample_metadata : Type := (bool * option nat)%type.

Definition sample_signal_defs : list (SignalDef sample_metadata) :=
  [ mkSignalDef sample_metadata "readme_quality" (1 / 2)
      (fun md => Some (if fst md then 1 else 0, "README"%string));
    mkSignalDef sample_metadata "commit_history" (1 / 2)
      (fun md => match snd md with
                 | None => None
                 | Some n => Some (Rmin 1 (INR n / 10), "history"%string)
                 end) ].

Definition sample_tables (k : EvidenceKind) : list (SignalDef sample_metadata) :=
  sample_signal_defs.

Definition sample_classify (md : sample_metadata) : string * option string :=
  ("python"%string, None).

Definition sample_hash (md : sample_metadata) : string := "0"%string.

Definition sample_signals_no_history : list Signal :=
  [ mkSignal "readme_quality" (1 / 2) 0 (0 * (1 / 2)) "README" ].

Definition sample_result_no_history : ScoringResult :=
  mkScoringResult (renormalize sample_signals_no_history) "python" None
    (INR 1 / INR 2) sample_signals_no_history "0".

End Scoring.

(* ================================================================= *)
(** ** Frontend: tier labels and the on-chain submission arguments *)

Module Frontend.
Open Scope string_scope.

(** [SubmitPage] (tierLabel) and [ExplorerPage] (tier) share this chain. *)
Definition submit_tierLabel (score : Z) : string :=
  if (90 <=? score)%Z then "exceptional"
  else if (70 <=? score)%Z then "strong"
  else if (50 <=? score)%Z then "moderate"
  else if (30 <=? score)%Z then "developing"
  else "minimal".

Definition explorer_tier (score : Z) : string :=
  if (90 <=? score)%Z then "exceptional"
  else if (70 <=? score)%Z then "strong"
  else if (50 <=? score)%Z then "moderate"
  else if (30 <=? score)%Z then "developing"
  else "minimal".

(** [VerifierPage]: tierLabel of the profile and rTier of each record. *)
Definition verifier_tierLabel (credibility_score : Z) : string :=
  if (90 <=? credibility_score)%Z then "exceptional"
  else if (70 <=? credibility_score)%Z then "strong"
  else if (50 <=? credibility_score)%Z then "moderate"
  else if (30 <=? credibility_score)%Z then "developing"
  else "minimal".

Definition verifier_rTier (rScore : Z) : string :=
  if (90 <=? rScore)%Z then "exceptional"
  else if (70 <=? rScore)%Z then "strong"
  else if (50 <=? rScore)%Z then "moderate"
  else if (30 <=? rScore)%Z then "developing"
  else "minimal".

(** [ScoreCircle]: tierColor and tierLabel. *)
Definition scoreCircle_tierColor (score : Z) : string :=
  if (90 <=? score)%Z then "var(--tier-exceptional)"
  else if (70 <=? score)%Z then "var(--tier-strong)"
  else if (50 <=? score)%Z then "var(--tier-moderate)"
  else if (30 <=? score)%Z then "var(--tier-developing)"
  else "var(--tier-minimal)".

Definition scoreCircle_tierLabel (score : Z) : string :=
  if (90 <=? score)%Z then "Exceptional"
  else if (70 <=? score)%Z then "Strong"
  else if (50 <=? score)%Z then "Moderate"
  else if (30 <=? score)%Z then "Developing"
  else "Minimal".

(** The tier ranges as the spec words them, each range written out. *)
Definition spec_tier (score : Z) : string :=
  if (90 <=? score)%Z then "exceptional"
  else if ((70 <=? score) && (score <=? 89))%Z then "strong"
  else if ((50 <=? score) && (score <=? 69))%Z then "moderate"
  else if ((30 <=? score) && (score <=? 49))%Z then "developing"
  else "minimal".

Definition capitalize (s : string) : string :=
  match s with
  | EmptyString => EmptyString
  | String c rest =>
      String (ascii_of_nat (nat_of_ascii c - 32)) rest
  end.

(** The parts of the analysis response that [handleSubmit] reads;
    [None] stands for a missing (undefined) property. *)
Record DomainEntry := mkDomainEntry {
  de_domain : option string;
  de_subdomain : option string
}.

Record AnalysisMetadata := mkMetadata {
  md_artifact_hash : option string;
  md_sha256 : option string;
  md_project_hash : option string
}.

Record Analysis := mkAnalysis {
  overall_score : R;
  domains : option (list DomainEntry);
  metadata : option AnalysisMetadata;
  source_type : option string
}.

Record SubmitArgs := mkSubmitArgs {
  modeVal : string;
  domainVal : string;
  scoreVal : Z;
  artifactHash : string;
  timestampVal : Z
}.

(** JavaScript truthiness of a string-valued property and [a || b]. *)
Definition truthy (v : option string) : bool :=
  match v with
  | Some s => if string_dec s "" then false else true
  | None => false
  end.

Definition js_or (v : option string) (d : string) : string :=
  match v with
  | Some s => if string_dec s "" then d else s
  | None => d
  end.

(** [Math.round]: floor of [x + 0.5]. *)
Definition math_round (x : R) : Z := Int_part (x + / 2).

(** ['0'.repeat(64)] *)
Fixpoint repeat_char (c : ascii) (n : nat) : string :=
  match n with
  | O => EmptyString
  | S k => String c (repeat_char c k)
  end.

Definition first_domain (a : Analysis) : option DomainEntry :=
  match domains a with
  | Some (e :: _) => Some e
  | _ => None
  end.

Definition meta_field (f : AnalysisMetadata -> option string) (a : Analysis) : option string :=
  match metadata a with
  | Some m => f m
  | None => None
  end.

(** [handleSubmit], lines preparing the method arguments; [now_ms] is
    [Date.now()]. *)
Definition submit_args (a : Analysis) (now_ms : Z) : SubmitArgs :=
  let timestamp := (now_ms / 1000)%Z in
  let artifactHash :=
    js_or (meta_field md_artifact_hash a)
      (js_or (meta_field md_sha256 a)
         (js_or (meta_field md_project_hash a) (repeat_char "0" 64))) in
  let scoreVal := math_round (overall_score a * 100) in
  let domainVal0 :=
    js_or (match first_domain a with Some e => de_domain e | None => None end) "general" in
  let domainVal :=
    match first_domain a with
    | Some e => if truthy (de_subdomain e)
                then domainVal0 ++ ":" ++ js_or (de_subdomain e) ""
                else domainVal0
    | None => domainVal0
    end in
  let modeVal := js_or (source_type a) "ai-graded" in
  mkSubmitArgs modeVal domainVal scoreVal artifactHash timestamp.

(** An analysis whose metadata carries a short artifact hash. *)
Definition short_hash_analysis : Analysis :=
  mkAnalysis (85 / 100)%R (Some [mkDomainEntry (Some "python") None])
    (Some (mkMetadata (Some "abc") None None)) None.

(** An analysis carrying a subdomain and no hash at all. *)
Definition subdomain_analysis : Analysis :=
  mkAnalysis (62 / 100)%R (Some [mkDomainEntry (Some "web3") (Some "defi")])
    (Some (mkMetadata None None None)) (Some "ai-graded").

End Frontend.

(* ================================================================= *)
(** ** API client: [fetchWithRetry] *)

Module Client.
Import Frontend.
Open Scope string_scope.

(** Decimal text of an integer, as a template literal prints it. *)
Fixpoint digits_of (fuel : nat) (n : Z) (acc : string) : string :=
  match fuel with
  | O => acc
  | S f =>
      let acc' := String (ascii_of_nat (48 + Z.to_nat (n mod 10))) acc in
      if (n <? 10)%Z then acc' else digits_of f (n / 10) acc'
  end.

Definition z_to_string (n : Z) : string :=
  if (n <? 0)%Z then "-" ++ digits_of 20 (- n) "" else digits_of 20 n "".

Definition MAX_RETRIES : Z := 3.

(** A thrown JavaScript error: its [name], [message], [status] (undefined
    for errors other than [APIError]) and [data]; the error data of an HTTP
    error is kept as far as its [detail] goes. *)
Record JsError := mkJsError {
  err_name : string;
  err_message : string;
  err_status : option Z;
  err_data : option string
}.

Definition APIError (message : string) (status : Z) (data : option string) : JsError :=
  mkJsError "APIError" message (Some status) data.

Section Fetch.

Variable Json : Type.

(** What one [fetch] of the loop gives: a response with [ok] whose body
    parses (or the message of the [SyntaxError] of [response.json()]), a
    response without [ok] with the [detail] of its body ([None] when the
    body has none or does not parse), the rejection by the abort
    controller after [TIMEOUT], or another rejection (a network error). *)
Inductive Response :=
  | RespOk (body : Json + string)
  | RespHttpError (status : Z) (statusText : string) (detail : option string)
  | RespAbort (message : string)
  | RespNetworkError (message : string).

(** The [try] block of one attempt. *)
Definition attempt (r : Response) : Json + JsError :=
  match r with
  | RespOk (inl v) => inl v
  | RespOk (inr msg) => inr (mkJsError "SyntaxError" msg None None)
  | RespHttpError st txt det =>
      inr (APIError (js_or det ("HTTP " ++ z_to_string st ++ ": " ++ txt)) st det)
  | RespAbort msg => inr (mkJsError "AbortError" msg None None)
  | RespNetworkError msg => inr (mkJsError "TypeError" msg None None)
  end.

(** [error.status === 429 || error.status >= 500] *)
Definition retry_status (s : option Z) : bool :=
  match s with
  | Some st => (st =? 429)%Z || (500 <=? st)%Z
  | None => false
  end.

(** [Math.pow(2, MAX_RETRIES - retries) * 1000] *)
Definition retry_delay (retries : nat) : R :=
  (powerRZ 2 (MAX_RETRIES - Z.of_nat retries) * 1000)%R.

Definition request_timeout : JsError := APIError "Request timeout" 408 None.

(** [fetchWithRetry(url, options, retries)]: [resp i] is what the [i]-th
    fetch of this call gives; the result lists the delays waited before
    each retry and the value returned or the error thrown. *)
Fixpoint fetch_with_retry (resp : nat -> Response) (retries : nat)
    : list R * (Json + JsError) :=
  match attempt (resp O) with
  | inl v => ([], inl v)
  | inr e =>
      if string_dec (err_name e) "AbortError" then ([], inr request_timeout)
      else
        match retries with
        | S r =>
            if retry_status (err_status e) then
              let (ws, out) := fetch_with_retry (fun i => resp (S i)) r in
              (retry_delay retries :: ws, out)
            else ([], inr e)
        | O => ([], inr e)
        end
  end.

(** The endpoints of [api] call it with the default [MAX_RETRIES]. *)
Definition api_fetch (resp : nat -> Response) : list R * (Json + JsError) :=
  fetch_with_retry resp (Z.to_nat MAX_RETRIES).

(** The waits of a call allowed [n] retries, in order. *)
Fixpoint backoff (n : nat) : list R :=
  match n with
  | O => []
  | S k => retry_delay n :: backoff k
  end.

(** The replies the catch block retries: HTTP errors 429 and 5xx. *)
Definition retryable (r : Response) : bool :=
  match r with
  | RespHttpError st _ _ => (st =? 429)%Z || (500 <=? st)%Z
  | _ => false
  end.

(** How a call ends at a fetch it does not retry. *)
Definition final_outcome (r : Response) : Json + JsError :=
  match r with
  | RespAbort _ => inr request_timeout
  | _ => attempt r
  end.

End Fetch.

Arguments RespOk {Json} _.
Arguments RespHttpError {Json} _ _ _.
Arguments RespAbort {Json} _.
Arguments RespNetworkError {Json} _.

(** Replies of a sample call: a 503, a 429, then a success. *)
Definition sample_replies (i : nat) : Response nat :=
  match i with
  | O => RespHttpError 503 "Service Unavailable" None
  | S O => RespHttpError 429 "Too Many Requests" (Some "rate limited")
  | _ => RespOk (inl 7%nat)
  end.

End Client.

(* ================================================================= *)
(** ** Wallet context *)

Module Wallet.
Import Frontend.
Open Scope string_scope.

(** The provider's state: [address] ([None] is [undefined]), [connected],
    [connecting], whether a Pera instance is held, and the value of
    [localStorage['verified_wallet']]. *)
Record WalletState := mkWalletState {
  address : option string;
  connected : bool;
  connecting : bool;
  pera_instance : bool;
  storage : option string
}.

(** The text [localStorage.setItem] stores for a value. *)
Definition storage_text (v : option string) : string :=
  match v with
  | Some s => s
  | None => "undefined"
  end.

(** The initial state read from the storage. *)
Definition init (stored : option string) : WalletState :=
  mkWalletState (Some (js_or stored "")) (truthy stored) false false stored.

Definition handle_disconnect (st : WalletState) : WalletState :=
  mkWalletState (Some "") false (connecting st) false None.

(** What [connectWallet] meets: the Pera SDK cannot be loaded, the
    connection throws (modal closed or other error), or [pera.connect()]
    returns the accounts. *)
Inductive ConnectOutcome :=
  | SdkUnavailable
  | ConnectFailed
  | ConnectAccounts (accounts : list string).

(** [connectWallet]: the new state and the returned value ([None] for
    [null], [Some None] for [undefined]). *)
Definition connect_wallet (st : WalletState) (o : ConnectOutcome)
    : WalletState * option (option string) :=
  match o with
  | SdkUnavailable =>
      (mkWalletState (address st) (connected st) false (pera_instance st) (storage st), None)
  | ConnectFailed =>
      (mkWalletState (address st) (connected st) false true (storage st), None)
  | ConnectAccounts accounts =>
      let addr := hd_error accounts in
      (mkWalletState addr true false true (Some (storage_text addr)), Some addr)
  end.

(** [disconnectWallet]: errors of [pera.disconnect()] are ignored. *)
Definition disconnect_wallet (st : WalletState) : WalletState := handle_disconnect st.

(** [setManualWallet(addr)] *)
Definition set_manual_wallet (st : WalletState) (addr : string) : WalletState :=
  let t := truthy (Some addr) in
  mkWalletState (Some addr) t (connecting st) (pera_instance st)
    (if t then Some addr else None).

(** Truthiness of the value [connectWallet] returns. *)
Definition truthy_ret (r : option (option string)) : bool :=
  match r with
  | Some a => truthy a
  | None => false
  end.

(** Navbar's [handleConnect]: the route navigated to, if any. *)
Definition navbar_handle_connect (st : WalletState) (o : ConnectOutcome)
    : WalletState * option string :=
  let (st', addr) := connect_wallet st o in
  (st', if truthy_ret addr then Some "/dashboard" else None).

(** A session: the user's actions and page reloads. *)
Inductive WalletOp :=
  | OpConnect (o : ConnectOutcome)
  | OpDisconnect
  | OpManual (addr : string)
  | OpReload.

Definition step (st : WalletState) (op : WalletOp) : WalletState :=
  match op with
  | OpConnect o => fst (connect_wallet st o)
  | OpDisconnect => disconnect_wallet st
  | OpManual a => set_manual_wallet st a
  | OpReload => init (storage st)
  end.

Definition run (st : WalletState) (ops : list WalletOp) : WalletState :=
  fold_left step ops st.

(** Pera hands back accounts whose first entry is a non-empty address. *)
Definition pera_op (op : WalletOp) : Prop :=
  match op with
  | OpConnect (ConnectAccounts accounts) => exists a, hd_error accounts = Some a /\ a <> ""
  | _ => True
  end.

(** The provider's state agrees with the storage: connected with a
    non-empty address that is stored, or disconnected with the empty
    address and nothing truthy stored. *)
Definition wallet_consistent (st : WalletState) : Prop :=
  (connected st = true /\ exists a, a <> "" /\ address st = Some a /\ storage st = Some a) \/
  (connected st = false /\ address st = Some "" /\ truthy (storage st) = false).

Definition sample_session : list WalletOp :=
  [OpConnect (ConnectAccounts ["ALGOADDR"]); OpReload; OpConnect ConnectFailed;
   OpManual ""; OpReload; OpManual "MANUALADDR"; OpDisconnect; OpReload].

End Wallet.

(* ================================================================= *)
(** ** Page handlers of the frontend *)

Module Pages.
Import Frontend Client.
Open Scope string_scope.

Definition API : string := "http://localhost:8000".
Definition EXPLORER : string := "https://testnet.explorer.perawallet.app/tx/".
Definition APP_ID : Z := 755779875.

(** The reply to one [fetch]: [ok] with its body parsed (or the message
    of the [SyntaxError] of [res.json()]), or not [ok] with its status and
    the [detail] of its body ([None] when absent or unparsable). *)
Inductive HttpReply (A : Type) :=
  | ReplyOk (body : A + string)
  | ReplyNotOk (status : Z) (detail : option string).

(** A [fetch] call: settled with a reply, or rejected with a message. *)
Inductive Fetched (A : Type) :=
  | Replied (r : A)
  | Rejected (message : string).

Arguments ReplyOk {A} _.
Arguments ReplyNotOk {A} _ _.
Arguments Replied {A} _.
Arguments Rejected {A} _.

(** A template literal's text of a possibly undefined string. *)
Definition js_text (v : option string) : string :=
  match v with
  | Some s => s
  | None => "undefined"
  end.

(** [walletAddr || address || walletInput] *)
Definition chosen_wallet (walletAddr : option string) (address walletInput : string) : string :=
  js_or walletAddr (js_or (Some address) walletInput).

(** [!w || w.length < 58]; lengths of ASCII text, as addresses are. *)
Definition wallet_rejected (w : string) : bool :=
  negb (truthy (Some w)) || (String.length w <? 58)%nat.

(** [DashboardPage.handleLookup]. *)
Section Dashboard.

Variables RepData RecordData : Type.

Record DashState := mkDash {
  reputation : option RepData;
  records : list RecordData;
  loading : bool;
  error : string
}.

(** [f] is what [Promise.all] of the two fetches gives; the wallet body
    is taken as far as its [records] property goes. The result is the
    final state and the URLs fetched. *)
Definition handle_lookup (st : DashState) (walletAddr : option string)
    (address walletInput : string)
    (f : Fetched (HttpReply RepData * HttpReply (option (list RecordData))))
    : DashState * list string :=
  let w := chosen_wallet walletAddr address walletInput in
  if wallet_rejected w then (st, [])
  else
    let fail msg := mkDash None [] false msg in
    (match f with
     | Rejected msg => fail msg
     | Replied (rep, wal) =>
         match rep, wal with
         | ReplyNotOk _ det, _ => fail (js_or det "Reputation fetch failed")
         | ReplyOk _, ReplyNotOk _ det => fail (js_or det "Records fetch failed")
         | ReplyOk (inr m), ReplyOk _ => fail m
         | ReplyOk (inl _), ReplyOk (inr m) => fail m
         | ReplyOk (inl repData), ReplyOk (inl recs) =>
             mkDash (Some repData) (match recs with Some l => l | None => [] end) false ""
         end
     end,
     [API ++ "/reputation/" ++ w; API ++ "/wallet/" ++ w]).

End Dashboard.

(** [VerifierPage.handleVerify]. *)
Section Verifier.

Variable VerifyData : Type.

Record VerifyState := mkVerify {
  vdata : option VerifyData;
  vloading : bool;
  verror : string
}.

Definition handle_verify (st : VerifyState) (walletAddr : option string)
    (address walletInput : string) (f : Fetched (HttpReply VerifyData))
    : VerifyState * list string :=
  let w := chosen_wallet walletAddr address walletInput in
  if wallet_rejected w then (st, [])
  else
    (match f with
     | Rejected msg => mkVerify None false msg
     | Replied (ReplyNotOk _ det) => mkVerify None false (js_or det "Verification failed")
     | Replied (ReplyOk (inr m)) => mkVerify None false m
     | Replied (ReplyOk (inl d)) => mkVerify (Some d) false ""
     end,
     [API ++ "/verify/" ++ w]).

End Verifier.

(** [DashboardPage.handleManualLookup]: [setManualWallet(walletInput)]
    and then [handleLookup(walletInput)], [address] being the value the
    page rendered with. *)
Definition handle_manual_lookup (RepData RecordData : Type) (ws : Wallet.WalletState)
    (st : DashState RepData RecordData) (address walletInput : string)
    (f : Fetched (HttpReply RepData * HttpReply (option (list RecordData))))
    : Wallet.WalletState * (DashState RepData RecordData * list string) :=
  if (58 <=? String.length walletInput)%nat then
    (Wallet.set_manual_wallet ws walletInput,
     handle_lookup RepData RecordData st (Some walletInput) address walletInput f)
  else (ws, (st, [])).

(** [VerifierPage.handleManualVerify]. *)
Definition handle_manual_verify (VerifyData : Type) (ws : Wallet.WalletState)
    (vs : VerifyState VerifyData) (address walletInput : string)
    (f : Fetched (HttpReply VerifyData))
    : Wallet.WalletState * (VerifyState VerifyData * list string) :=
  if (58 <=? String.length walletInput)%nat then
    (Wallet.set_manual_wallet ws walletInput,
     handle_verify VerifyData vs (Some walletInput) address walletInput f)
  else (ws, (vs, [])).

(** [SubmitPage.handleSetWallet]. *)
Definition handle_set_wallet (ws : Wallet.WalletState) (walletInput : string) : Wallet.WalletState :=
  if (58 <=? String.length walletInput)%nat then Wallet.set_manual_wallet ws walletInput else ws.

(** VerifierPage's "Connect & Verify" button:
    [const addr = await connectWallet(); if (addr) handleVerify(addr);]. *)
Definition verifier_connect_verify (VerifyData : Type) (ws : Wallet.WalletState)
    (vs : VerifyState VerifyData) (address walletInput : string) (o : Wallet.ConnectOutcome)
    (f : Fetched (HttpReply VerifyData))
    : Wallet.WalletState * (VerifyState VerifyData * list string) :=
  let (ws', r) := Wallet.connect_wallet ws o in
  match r with
  | Some a => if truthy a then (ws', handle_verify VerifyData vs a address walletInput f)
              else (ws', (vs, []))
  | None => (ws', (vs, []))
  end.

(** [SubmitPage.handleAnalyze] and [SubmitPage.handleSubmit]. *)
Record SubmitResult := mkSubmitResult {
  sr_success : bool;
  sr_transaction_id : option string;
  sr_skill_id : string;
  sr_score : Z;
  sr_status : string;
  sr_explorer_url : string
}.

Section Submit.

Variable File : Type.

Record SubmitPageState := mkSubmitPage {
  analysis : option Analysis;
  submitResult : option SubmitResult;
  analyzing : bool;
  submitting : bool;
  serror : string;
  analyzeTime : string
}.



(** The application call composed for [submit_skill_record]: its
    arguments, the sender, and the address whose public key names the
    box. *)
Record MethodCall := mkMethodCall {
  appID : Z;
  methodArgs : SubmitArgs;
  sender : string;
  box_address : string
}.

(** What happens after [/submit/prepare]: loading the SDK, the
    transaction parameters or decoding the address throws, or the signed
    group is executed, failing or giving the transaction ids. *)
Inductive ChainOutcome :=
  | SetupFailed (message : string)
  | ExecuteFailed (message : string)
  | Executed (txIDs : list string).

Definition no_signer_message : string :=
  "Wallet not connected or Pera Wallet SDK not initialized. Please reconnect.".

Definition set_error (st : SubmitPageState) (msg : string) : SubmitPageState :=
  mkSubmitPage (analysis st) (submitResult st) (analyzing st) (submitting st) msg (analyzeTime st).

(** [now_ms] is [Date.now()]; [prepare] the fetch of [/submit/prepare],
    whose reply is not inspected. *)
Definition handle_submit (st : SubmitPageState) (address walletInput : string)
    (peraWallet : bool) (prepare : Fetched (HttpReply unit)) (chain : ChainOutcome)
    (now_ms : Z) : SubmitPageState * option MethodCall :=
  match analysis st with
  | None => (st, None)
  | Some a =>
      let wallet := js_or (Some address) walletInput in
      if wallet_rejected wallet then (set_error st "Please connect your wallet first.", None)
      else
        let fail msg :=
          mkSubmitPage (analysis st) (submitResult st) (analyzing st) false
            (js_or (Some msg) "Submission failed") (analyzeTime st) in
        match prepare with
        | Rejected m => (fail m, None)
        | Replied _ =>
            match chain with
            | SetupFailed m => (fail m, None)
            | _ =>
                let args := submit_args a now_ms in
                let call := mkMethodCall APP_ID args wallet wallet in
                if negb peraWallet then (fail no_signer_message, Some call)
                else
                  match chain with
                  | Executed txIDs =>
                      let tx := hd_error txIDs in
                      (mkSubmitPage (analysis st)
                         (Some (mkSubmitResult true tx (domainVal args) (scoreVal args)
                                  "confirmed" (EXPLORER ++ js_text tx)))
                         (analyzing st) false "" (analyzeTime st), Some call)
                  | ExecuteFailed m => (fail m, Some call)
                  | SetupFailed m => (fail m, None)
                  end
            end
        end
  end.

End Submit.

(** [ScoreCircle]: radius, circumference and dash offset. *)
Definition sc_radius (size : R) : R := ((size - 12) / 2)%R.
Definition sc_circumference (size : R) : R := (2 * PI * sc_radius size)%R.
Definition sc_offset (score size : R) : R :=
  (sc_circumference size - (score / 100) * sc_circumference size)%R.



Fixpoint insert_desc (x : string * R) (l : list (string * R)) : list (string * R) :=
  match l with
  | [] => [x]
  | y :: l' => if Rlt_dec (snd y) (snd x) then x :: y :: l' else y :: insert_desc x l'
  end.

Definition sort_desc (l : list (string * R)) : list (string * R) :=
  fold_left (fun acc x => insert_desc x acc) l [].

(** [x || d] on numbers. *)
Definition num_or (v : option R) (d : R) : R :=
  match v with
  | Some x => if Req_dec_T x 0 then d else x
  | None => d
  end.

(** ExplorerPage's card: [Math.round(p.total_reputation || p.credibility_score || 0)]. *)
Definition explorer_score (total_reputation credibility_score : option R) : Z :=
  math_round (num_or total_reputation (num_or credibility_score 0%R)).

Definition sample_languages : list (string * R) :=
  [("Python", 300%R); ("Rust", 500%R); ("Shell", 200%R)].

End Pages.

(* ================================================================= *)
(** ** Codec proofs *)

Module CodecProofs.
Import Codec.
Open Scope Z_scope.

Lemma be_encode_length : forall n x, length (be_encode n x) = n.
Proof.
  induction n as [|k IH]; intros x; simpl; [reflexivity|].
  rewrite length_app, IH; simpl; lia.
Qed.

Lemma be_decode_snoc : forall l b, be_decode (l ++ [b]) = be_decode l * 256 + b.
Proof. intros l b. unfold be_decode. rewrite fold_left_app. reflexivity. Qed.

Lemma be_decode_encode_mod : forall n x,
  be_decode (be_encode n x) = x mod 256 ^ Z.of_nat n.
Proof.
  induction n as [|k IH]; intros x.
  - simpl. rewrite Z.mod_1_r. reflexivity.
  - cbn [be_encode]. rewrite be_decode_snoc, IH.
    rewrite Nat2Z.inj_succ, Z.pow_succ_r by lia.
    assert (Hp : 0 < 256 ^ Z.of_nat k) by (apply Z.pow_pos_nonneg; lia).
    set (p := 256 ^ Z.of_nat k) in *.
    pose proof (Z.div_mod x 256 ltac:(lia)) as H1.
    pose proof (Z.div_mod (x / 256) p ltac:(lia)) as H2.
    pose proof (Z.mod_pos_bound x 256 ltac:(lia)) as H3.
    pose proof (Z.mod_pos_bound (x / 256) p Hp) as H4.
    apply Z.mod_unique with (q := x / 256 / p); [left; nia | nia].
Qed.

Lemma be_decode_encode : forall n x,
  0 <= x < 256 ^ Z.of_nat n -> be_decode (be_encode n x) = x.
Proof. intros n x H. rewrite be_decode_encode_mod. apply Z.mod_small; exact H. Qed.

Lemma be_encode_2 : forall x, be_encode 2 x = [x / 256 mod 256; x mod 256].
Proof. intros x. reflexivity. Qed.

Lemma sub_app_r : forall (a b : bytes) n m,
  (length a <= n)%nat -> sub (a ++ b) n m = sub b (n - length a) m.
Proof.
  intros a b n m H. unfold sub. rewrite skipn_app.
  rewrite (skipn_all2 a) by lia. reflexivity.
Qed.

Lemma sub_app_l : forall (a b : bytes) n m,
  (n + m <= length a)%nat -> sub (a ++ b) n m = sub a n m.
Proof.
  intros a b n m H. unfold sub. rewrite skipn_app, firstn_app.
  rewrite length_skipn.
  replace (m - (length a - n))%nat with 0%nat by lia.
  simpl. rewrite app_nil_r. reflexivity.
Qed.

Lemma sub_whole : forall (a : bytes) n m,
  n = 0%nat -> m = length a -> sub a n m = a.
Proof. intros a n m -> ->. unfold sub. simpl. apply firstn_all. Qed.

Lemma encode_string_length : forall x, length (encode_string x) = (2 + length x)%nat.
Proof. intros x. unfold encode_string. rewrite length_app, be_encode_length. reflexivity. Qed.

Lemma pow256_2 : 256 ^ Z.of_nat 2 = 65536.
Proof. reflexivity. Qed.

Lemma pow256_8 : 256 ^ Z.of_nat 8 = 18446744073709551616.
Proof. reflexivity. Qed.

Lemma pow2_64 : 2 ^ 64 = 18446744073709551616.
Proof. reflexivity. Qed.

Ltac len_solve :=
  rewrite ?pow256_2, ?pow256_8, ?pow2_64 in *;
  rewrite ?length_app, ?be_encode_length, ?encode_string_length;
  unfold head_len in *; lia.

(** Peel a slice out of a right-nested concatenation. *)
Ltac slice :=
  repeat first
    [ rewrite sub_whole by len_solve
    | rewrite sub_app_r by len_solve
    | rewrite sub_app_l by len_solve ].

Lemma read_string_at : forall pre x post,
  Z.of_nat (length (pre ++ encode_string x ++ post)) < 65536 ->
  read_string (pre ++ encode_string x ++ post) (Z.of_nat (length pre)) = Ok x.
Proof.
  intros pre x post Hlen.
  rewrite !length_app, encode_string_length in Hlen.
  unfold read_string.
  rewrite Nat2Z.id.
  assert (Hs : sub (pre ++ encode_string x ++ post) (length pre) 2
               = be_encode 2 (Z.of_nat (length x))).
  { slice. unfold encode_string. slice. reflexivity. }
  rewrite Hs, be_decode_encode by (simpl; lia).
  rewrite !length_app, encode_string_length.
  destruct (Z.ltb_spec (Z.of_nat (length pre + (2 + length x + length post)))
                       (Z.of_nat (length pre) + 2)); [lia|].
  destruct (Z.ltb_spec (Z.of_nat (length pre + (2 + length x + length post)))
                       (Z.of_nat (length pre) + 2 + Z.of_nat (length x))); [lia|].
  f_equal.
  replace (Z.to_nat (Z.of_nat (length pre) + 2)) with (length pre + 2)%nat by lia.
  rewrite Nat2Z.id.
  slice. unfold encode_string. slice. reflexivity.
Qed.

Lemma encode_struct_length : forall r,
  length (encode_struct r) =
  (28 + length (mode r) + length (domain r) + length (artifact_hash r))%nat.
Proof. intros r. unfold encode_struct. len_solve. Qed.

Lemma decode_struct_encode : forall r,
  valid_record r -> decode_struct (encode_struct r) = Ok r.
Proof.
  intros [m d sc a ts] (Hm & Hd & Ha & Hsc & Hts & _ & _ & Hlen).
  cbn [mode domain score artifact_hash timestamp] in *.
  rewrite encode_struct_length in Hlen; cbn [mode domain artifact_hash] in Hlen.
  set (hd := be_encode 2 (Z.of_nat head_len)
             ++ be_encode 2 (Z.of_nat (head_len + 2 + length m))
             ++ be_encode 8 sc
             ++ be_encode 2 (Z.of_nat (head_len + 2 + length m + 2 + length d))
             ++ be_encode 8 ts).
  assert (Hhd : length hd = 22%nat) by (unfold hd; len_solve).
  assert (Es : encode_struct (mkSkillRecord m d sc a ts)
               = hd ++ encode_string m ++ encode_string d ++ encode_string a)
    by (unfold hd, encode_struct; cbn [mode domain score artifact_hash timestamp];
        rewrite <- !app_assoc; reflexivity).
  unfold decode_struct. cbv zeta. rewrite Es.
  assert (Hmo : be_decode (sub (hd ++ encode_string m ++ encode_string d ++ encode_string a) 0 2)
                = Z.of_nat (length hd)).
  { unfold hd. slice. rewrite be_decode_encode; len_solve. }
  assert (Hdo : be_decode (sub (hd ++ encode_string m ++ encode_string d ++ encode_string a) 2 2)
                = Z.of_nat (length (hd ++ encode_string m))).
  { unfold hd. slice. rewrite be_decode_encode; len_solve. }
  assert (Hsco : be_decode (sub (hd ++ encode_string m ++ encode_string d ++ encode_string a) 4 8)
                 = sc).
  { unfold hd. slice. rewrite be_decode_encode; [reflexivity|len_solve]. }
  assert (Hao : be_decode (sub (hd ++ encode_string m ++ encode_string d ++ encode_string a) 12 2)
                = Z.of_nat (length ((hd ++ encode_string m) ++ encode_string d))).
  { unfold hd. slice. rewrite be_decode_encode; len_solve. }
  assert (Htso : be_decode (sub (hd ++ encode_string m ++ encode_string d ++ encode_string a) 14 8)
                 = ts).
  { unfold hd. slice. rewrite be_decode_encode; [reflexivity|len_solve]. }
  rewrite Hmo, Hdo, Hsco, Hao, Htso.
  assert (Lall : (length (hd ++ encode_string m ++ encode_string d ++ encode_string a)
                  <? head_len)%nat = false).
  { apply Nat.ltb_ge. len_solve. }
  rewrite Lall.
  rewrite read_string_at
    by (rewrite !length_app, !encode_string_length in *; lia).
  rewrite (app_assoc hd), read_string_at
    by (rewrite !length_app, !encode_string_length in *; lia).
  replace ((hd ++ encode_string m) ++ encode_string d ++ encode_string a)
    with (((hd ++ encode_string m) ++ encode_string d) ++ encode_string a ++ [])
    by (rewrite app_nil_r, <- app_assoc; reflexivity).
  rewrite read_string_at
    by (rewrite app_nil_r, !length_app, !encode_string_length in *; lia).
  rewrite Hm, Hd, Ha. simpl.
  destruct (Z.ltb_spec 100 sc); [lia|]. reflexivity.
Qed.

Lemma firstn_app_length : forall (a b : bytes), firstn (length a) (a ++ b) = a.
Proof.
  intros a b. rewrite firstn_app, Nat.sub_diag, firstn_all. simpl. apply app_nil_r.
Qed.

Lemma skipn_app_length : forall (a b : bytes), skipn (length a) (a ++ b) = b.
Proof.
  intros a b. rewrite skipn_app, Nat.sub_diag, skipn_all. reflexivity.
Qed.

Lemma decode_frame_encode : forall r rest,
  valid_record r -> decode_frame (encode r ++ rest) = Ok (r, rest).
Proof.
  intros r rest Hv.
  assert (Hlen : Z.of_nat (length (encode_struct r)) < 65536)
    by (destruct Hv as (_ & _ & _ & _ & _ & _ & _ & H); exact H).
  unfold encode. cbv zeta.
  rewrite be_encode_2. cbn [app]. unfold decode_frame. cbv zeta.
  rewrite <- be_encode_2, be_decode_encode by len_solve.
  rewrite length_app.
  destruct (Z.ltb_spec (Z.of_nat (length (encode_struct r) + length rest))
                       (Z.of_nat (length (encode_struct r)))); [lia|].
  rewrite Nat2Z.id, firstn_app_length, skipn_app_length.
  rewrite decode_struct_encode by exact Hv. reflexivity.
Qed.

Lemma decode_frames_cons : forall f r rest,
  valid_record r ->
  decode_frames (S f) (encode r ++ rest) =
  match decode_frames f rest with
  | Ok rs => Ok (r :: rs)
  | Err e => Err e
  end.
Proof.
  intros f r rest Hv.
  assert (E : exists h t, encode r ++ rest = h :: t)
    by (unfold encode; rewrite be_encode_2; eexists _, _; reflexivity).
  destruct E as (h & t & E).
  rewrite E. cbn [decode_frames]. rewrite <- E, decode_frame_encode by exact Hv.
  reflexivity.
Qed.

Lemma encode_length : forall r, length (encode r) = (2 + length (encode_struct r))%nat.
Proof. intros r. unfold encode. cbv zeta. rewrite length_app, be_encode_length. reflexivity. Qed.

Lemma encode_all_length : forall rs, (length rs <= length (encode_all rs))%nat.
Proof.
  unfold encode_all.
  induction rs as [|r rs IH]; cbn [length map concat]; [lia|].
  rewrite length_app, encode_length. lia.
Qed.

Lemma decode_frames_encode_all : forall rs f,
  Forall valid_record rs -> (length rs <= f)%nat ->
  decode_frames f (encode_all rs) = Ok rs.
Proof.
  induction rs as [|r rs IH]; intros f Hv Hf.
  - destruct f; reflexivity.
  - inversion Hv as [|? ? Hr Hrs]; subst.
    destruct f as [|f]; [simpl in Hf; lia|].
    unfold encode_all. cbn [map concat]. fold (encode_all rs).
    rewrite decode_frames_cons by exact Hr.
    rewrite IH; [reflexivity | exact Hrs | cbn [length] in Hf; lia].
Qed.

Lemma read_string_error : forall s off e,
  read_string s off = Err e -> e = InvalidOffsetError.
Proof.
  intros s off e H. unfold read_string in H.
  destruct (_ <? _); [congruence|].
  destruct (_ <? _); congruence.
Qed.

Lemma read_string_out : forall s off,
  Z.of_nat (length s) <= off -> read_string s off = Err InvalidOffsetError.
Proof.
  intros s off H. unfold read_string.
  destruct (Z.ltb_spec (Z.of_nat (length s)) (off + 2)); [reflexivity|lia].
Qed.

Lemma decode_struct_offset : forall s,
  (head_len <= length s)%nat ->
  Exists (fun off => Z.of_nat (length s) <= off) (struct_offsets s) ->
  decode_struct s = Err InvalidOffsetError.
Proof.
  intros s Hh Hex. unfold decode_struct. cbv zeta.
  destruct (Nat.ltb_spec (length s) head_len) as [Hlt|_]; [lia|].
  unfold struct_offsets in Hex.
  destruct (read_string s (be_decode (sub s 0 2))) as [m|e1] eqn:E1;
  [|apply read_string_error in E1; subst; reflexivity].
  destruct (read_string s (be_decode (sub s 2 2))) as [d|e2] eqn:E2;
  [|apply read_string_error in E2; subst; reflexivity].
  destruct (read_string s (be_decode (sub s 12 2))) as [a|e3] eqn:E3;
  [|apply read_string_error in E3; subst; reflexivity].
  exfalso.
  inversion Hex as [? ? Ho|? ? Hex']; subst.
  - rewrite read_string_out in E1 by exact Ho. discriminate.
  - inversion Hex' as [? ? Ho|? ? Hex'']; subst.
    + rewrite read_string_out in E2 by exact Ho. discriminate.
    + inversion Hex'' as [? ? Ho|? ? Hnil]; subst.
      * rewrite read_string_out in E3 by exact Ho. discriminate.
      * inversion Hnil.
Qed.

Lemma decode_struct_utf8 : forall s m d a,
  (head_len <= length s)%nat ->
  read_string s (be_decode (sub s 0 2)) = Ok m ->
  read_string s (be_decode (sub s 2 2)) = Ok d ->
  read_string s (be_decode (sub s 12 2)) = Ok a ->
  utf8_valid m && utf8_valid d && utf8_valid a = false ->
  decode_struct s = Err Utf8DecodeError.
Proof.
  intros s m d a Hh E1 E2 E3 Hu. unfold decode_struct. cbv zeta.
  destruct (Nat.ltb_spec (length s) head_len); [lia|].
  rewrite E1, E2, E3, Hu. reflexivity.
Qed.

Lemma decode_struct_score : forall s m d a,
  (head_len <= length s)%nat ->
  read_string s (be_decode (sub s 0 2)) = Ok m ->
  read_string s (be_decode (sub s 2 2)) = Ok d ->
  read_string s (be_decode (sub s 12 2)) = Ok a ->
  utf8_valid m && utf8_valid d && utf8_valid a = true ->
  100 < be_decode (sub s 4 8) ->
  decode_struct s = Err FieldBoundsError.
Proof.
  intros s m d a Hh E1 E2 E3 Hu Hs. unfold decode_struct. cbv zeta.
  destruct (Nat.ltb_spec (length s) head_len); [lia|].
  rewrite E1, E2, E3, Hu. simpl.
  destruct (Z.ltb_spec 100 (be_decode (sub s 4 8))); [reflexivity|lia].
Qed.

Lemma decode_frame_struct : forall s rest,
  Z.of_nat (length s) < 65536 ->
  decode_frame (frame s ++ rest) =
  match decode_struct s with
  | Ok r => Ok (r, rest)
  | Err e => Err e
  end.
Proof.
  intros s rest Hlen.
  unfold frame. rewrite be_encode_2. cbn [app]. unfold decode_frame. cbv zeta.
  rewrite <- be_encode_2, be_decode_encode by len_solve.
  rewrite length_app.
  destruct (Z.ltb_spec (Z.of_nat (length s + length rest)) (Z.of_nat (length s))); [lia|].
  rewrite Nat2Z.id, firstn_app_length, skipn_app_length.
  destruct (decode_struct s); reflexivity.
Qed.

Lemma decode_frame_truncated : forall hi lo rest,
  Z.of_nat (length rest) < be_decode [hi; lo] ->
  decode_frame (hi :: lo :: rest) = Err TruncatedRecordError.
Proof.
  intros hi lo rest H. unfold decode_frame. cbv zeta.
  destruct (Z.ltb_spec (Z.of_nat (length rest)) (be_decode [hi; lo])); [reflexivity|lia].
Qed.

(** A failing frame after any number of well-formed records fails the
    whole decode, whatever follows it. *)
Lemma decode_frames_error : forall rs f x xs e,
  Forall valid_record rs -> (length rs < f)%nat ->
  decode_frame (x :: xs) = Err e ->
  decode_frames f (encode_all rs ++ x :: xs) = Err e.
Proof.
  induction rs as [|r rs IH]; intros f x xs e Hv Hf He.
  - destruct f as [|f]; [cbn [length] in Hf; lia|].
    cbn [encode_all map concat app decode_frames]. rewrite He. reflexivity.
  - inversion Hv as [|? ? Hr Hrs]; subst.
    destruct f as [|f]; [cbn [length] in Hf; lia|].
    unfold encode_all. cbn [map concat]. fold (encode_all rs).
    rewrite <- app_assoc, decode_frames_cons by exact Hr.
    rewrite (IH f x xs e Hrs ltac:(cbn [length] in Hf; lia) He). reflexivity.
Qed.

Lemma decode_error_after : forall rs x xs e,
  Forall valid_record rs ->
  decode_frame (x :: xs) = Err e ->
  decode (encode_all rs ++ x :: xs) = Err e.
Proof.
  intros rs x xs e Hv He. unfold decode.
  apply decode_frames_error; [exact Hv| |exact He].
  pose proof (encode_all_length rs). rewrite length_app. cbn [length]. lia.
Qed.

Lemma valid_sample_records : Forall valid_record [sample_python; sample_web3].
Proof.
  repeat constructor; unfold valid_record; cbn;
    repeat split; try reflexivity; try lia; rewrite pow2_64; lia.
Defined.

(** C1: the record codec round-trips.  For valid records, decoding the
    concatenation of their encodings gives back exactly the list, in
    append (oldest-first) order, and each single encoding decodes to the
    one-element list of its record. *)
Theorem decode_encode_roundtrip : forall rs,
  Forall valid_record rs ->
  decode (encode_all rs) = Ok rs /\
  Forall (fun r => decode (encode r) = Ok [r]) rs.
Proof.
  intros rs Hv. split.
  - unfold decode. apply decode_frames_encode_all; [exact Hv|].
    apply encode_all_length.
  - apply Forall_impl with (P := valid_record); [|exact Hv].
    intros r Hr.
    assert (E : encode_all [r] = encode r)
      by (unfold encode_all; cbn [map concat]; apply app_nil_r).
    rewrite <- E. unfold decode.
    apply decode_frames_encode_all; [constructor; [exact Hr | constructor]|].
    apply encode_all_length.
Qed.

Lemma decode_encode_roundtrip_witness :
  Forall valid_record [sample_python; sample_web3] /\
  decode (encode_all [sample_python; sample_web3]) = Ok [sample_python; sample_web3] /\
  Forall (fun r => decode (encode r) = Ok [r]) [sample_python; sample_web3].
Proof.
  split; [exact valid_sample_records|].
  apply (decode_encode_roundtrip [sample_python; sample_web3]).
  exact valid_sample_records.
Defined.

Lemma frame_cons : forall s rest, exists x xs, frame s ++ rest = x :: xs.
Proof. intros s rest. unfold frame. rewrite be_encode_2. eexists _, _. reflexivity. Qed.

Lemma decode_struct_error_blob : forall rs s rest e,
  Forall valid_record rs -> Z.of_nat (length s) < 65536 ->
  decode_struct s = Err e ->
  decode (encode_all rs ++ frame s ++ rest) = Err e.
Proof.
  intros rs s rest e Hv Hlen He.
  destruct (frame_cons s rest) as (x & xs & E). rewrite E.
  apply decode_error_after; [exact Hv|].
  rewrite <- E, decode_frame_struct, He by exact Hlen. reflexivity.
Qed.

(** C4: malformed input makes Decode fail, never yield a partial list.
    After any run of well-formed records: a declared record length larger
    than the remaining bytes (or a lone trailing byte) gives
    TruncatedRecordError; a string offset outside the struct gives
    InvalidOffsetError; a payload that is not UTF-8 gives Utf8DecodeError;
    a score above 100 gives FieldBoundsError, whatever bytes follow. *)
Theorem decode_malformed_errors : forall rs,
  Forall valid_record rs ->
  (forall hi lo rest, Z.of_nat (length rest) < be_decode [hi; lo] ->
     decode (encode_all rs ++ hi :: lo :: rest) = Err TruncatedRecordError) /\
  (forall b, decode (encode_all rs ++ [b]) = Err TruncatedRecordError) /\
  (forall s rest,
     Z.of_nat (length s) < 65536 -> (head_len <= length s)%nat ->
     Exists (fun off => Z.of_nat (length s) <= off) (struct_offsets s) ->
     decode (encode_all rs ++ frame s ++ rest) = Err InvalidOffsetError) /\
  (forall s rest m d a,
     Z.of_nat (length s) < 65536 -> (head_len <= length s)%nat ->
     read_string s (be_decode (sub s 0 2)) = Ok m ->
     read_string s (be_decode (sub s 2 2)) = Ok d ->
     read_string s (be_decode (sub s 12 2)) = Ok a ->
     utf8_valid m && utf8_valid d && utf8_valid a = false ->
     decode (encode_all rs ++ frame s ++ rest) = Err Utf8DecodeError) /\
  (forall s rest m d a,
     Z.of_nat (length s) < 65536 -> (head_len <= length s)%nat ->
     read_string s (be_decode (sub s 0 2)) = Ok m ->
     read_string s (be_decode (sub s 2 2)) = Ok d ->
     read_string s (be_decode (sub s 12 2)) = Ok a ->
     utf8_valid m && utf8_valid d && utf8_valid a = true ->
     100 < be_decode (sub s 4 8) ->
     decode (encode_all rs ++ frame s ++ rest) = Err FieldBoundsError).
Proof.
  intros rs Hv. repeat split.
  - intros hi lo rest H. apply decode_error_after; [exact Hv|].
    apply decode_frame_truncated. exact H.
  - intros b. apply decode_error_after; [exact Hv|]. reflexivity.
  - intros s rest Hlen Hh Hex. apply decode_struct_error_blob; [exact Hv|exact Hlen|].
    apply decode_struct_offset; assumption.
  - intros s rest m d a Hlen Hh E1 E2 E3 Hu.
    apply decode_struct_error_blob; [exact Hv|exact Hlen|].
    eapply decode_struct_utf8; eassumption.
  - intros s rest m d a Hlen Hh E1 E2 E3 Hu Hs.
    apply decode_struct_error_blob; [exact Hv|exact Hlen|].
    eapply decode_struct_score; eassumption.
Qed.

Lemma decode_malformed_errors_witness :
  Forall valid_record [sample_python] /\
  decode (encode_all [sample_python] ++ [0; 200; 1; 2; 3]) = Err TruncatedRecordError.
Proof.
  assert (Hv : Forall valid_record [sample_python]).
  { repeat constructor; unfold valid_record; cbn;
      repeat split; try reflexivity; try lia; rewrite pow2_64; lia. }
  split; [exact Hv|].
  destruct (decode_malformed_errors [sample_python] Hv) as (Ht & _).
  apply Ht. reflexivity.
Defined.

End CodecProofs.

(* ================================================================= *)
(** ** Reputation proofs *)

Module ReputationProofs.
Import Codec Reputation.
Open Scope R_scope.

Lemma record_weight_pos : forall now r, 0 < record_weight now r.
Proof. intros now r. unfold record_weight, decay_weight. apply exp_pos. Qed.

Lemma rsum_weights_pos : forall now rs, rs <> [] -> 0 < rsum (map (record_weight now) rs).
Proof.
  intros now rs Hne. destruct rs as [|r rs]; [congruence|].
  unfold rsum. cbn [map fold_right].
  pose proof (record_weight_pos now r).
  enough (0 <= fold_right Rplus 0 (map (record_weight now) rs)) by lra.
  clear. induction rs as [|r' rs IH]; cbn [map fold_right]; [lra|].
  pose proof (record_weight_pos now r'). lra.
Qed.

(** The decayed weighted sum lies between the bounds of the scores. *)
Lemma weighted_sum_bounds : forall now lo hi rs,
  Forall (fun r => lo <= IZR (score r) <= hi) rs ->
  lo * rsum (map (record_weight now) rs)
    <= rsum (map (fun r => IZR (score r) * record_weight now r) rs)
    <= hi * rsum (map (record_weight now) rs).
Proof.
  intros now lo hi rs H. unfold rsum.
  induction H as [|r rs Hr _ IH]; cbn [map fold_right] in *.
  - lra.
  - pose proof (record_weight_pos now r).
    split; nra.
Qed.

Lemma ratio_bounds : forall a b lo hi,
  0 < b -> lo * b <= a <= hi * b -> lo <= a / b <= hi.
Proof.
  intros a b lo hi Hb [H1 H2]. unfold Rdiv. split.
  - apply Rmult_le_reg_r with b; [exact Hb|].
    rewrite Rmult_assoc, Rinv_l, Rmult_1_r by lra. lra.
  - apply Rmult_le_reg_r with b; [exact Hb|].
    rewrite Rmult_assoc, Rinv_l, Rmult_1_r by lra. lra.
Qed.

Lemma weighted_score_bounds : forall now lo hi rs,
  rs <> [] -> Forall (fun r => lo <= IZR (score r) <= hi) rs ->
  lo <= weighted_score now rs <= hi.
Proof.
  intros now lo hi rs Hne H. unfold weighted_score. apply ratio_bounds.
  - apply rsum_weights_pos. exact Hne.
  - apply weighted_sum_bounds. exact H.
Qed.

Lemma clamp01_bounds : forall x, 0 <= clamp01 x <= 1.
Proof.
  intros x. unfold clamp01, Rmin.
  destruct (Rle_dec 1 x); unfold Rmax; destruct (Rle_dec 0 _); lra.
Qed.

Lemma clamp01_id : forall x, 0 <= x <= 1 -> clamp01 x = x.
Proof.
  intros x H. unfold clamp01, Rmin.
  destruct (Rle_dec 1 x); unfold Rmax; destruct (Rle_dec 0 _); lra.
Qed.

Lemma weighted_score_lower : forall now lo rs,
  rs <> [] -> Forall (fun r => lo <= IZR (score r)) rs ->
  lo <= weighted_score now rs.
Proof.
  intros now lo rs Hne H. unfold weighted_score.
  assert (Hs : lo * rsum (map (record_weight now) rs)
               <= rsum (map (fun r => IZR (score r) * record_weight now r) rs)).
  { unfold rsum. clear Hne.
    induction H as [|r rs Hr _ IH]; cbn [map fold_right] in *; [lra|].
    pose proof (record_weight_pos now r). nra. }
  pose proof (rsum_weights_pos now rs Hne) as Hp.
  unfold Rdiv. apply Rmult_le_reg_r with (rsum (map (record_weight now) rs)); [exact Hp|].
  rewrite Rmult_assoc, Rinv_l, Rmult_1_r by lra. exact Hs.
Qed.

Lemma scores_in_range : forall rs,
  Forall (fun r => (0 <= score r <= 100)%Z) rs ->
  Forall (fun r => 0 <= IZR (score r) <= 100) rs.
Proof.
  intros rs H. apply Forall_impl with (P := fun r => (0 <= score r <= 100)%Z); [|exact H].
  intros r [H1 H2]. split; [apply IZR_le in H1 | apply IZR_le in H2]; exact H1 || exact H2.
Qed.

Lemma ge_bool_true : forall x y, y <= x -> ge_bool x y = true.
Proof. intros x y H. unfold ge_bool. destruct (Rle_dec y x); [reflexivity|contradiction]. Qed.

Lemma exp_pow_nat : forall n a, exp (INR n * a) = exp a ^ n.
Proof.
  induction n as [|n IH]; intros a.
  - simpl. rewrite Rmult_0_l. apply exp_0.
  - rewrite S_INR, Rmult_plus_distr_r, Rmult_1_l, exp_plus, IH. simpl. ring.
Qed.

Lemma exp_opp_mult : forall a, exp a * exp (- a) = 1.
Proof. intros a. rewrite <- exp_plus, Rplus_opp_r. apply exp_0. Qed.

(** [exp 0.693] lies within [100/51, 100/49], through sixteenth powers
    of the bounds [1 + y <= exp y] at [y = 0.693/16] and [y = -0.693/16]. *)
Lemma exp_0693_bounds : 100 / 51 < exp (693 / 1000) < 100 / 49.
Proof.
  set (a := 693 / 16000).
  replace (693 / 1000) with (INR 16 * a) by (unfold a; simpl; lra).
  rewrite exp_pow_nat.
  pose proof (exp_ineq1_le a) as Hlo.
  pose proof (exp_ineq1_le (- a)) as Hup.
  pose proof (exp_opp_mult a) as Hinv.
  pose proof (exp_pos a) as Hpos.
  assert (Ha : a = 693 / 16000) by reflexivity.
  split.
  - assert (H16 : (1 + a) ^ 16 <= exp a ^ 16) by (apply pow_incr; lra).
    assert (100 / 51 < (1 + a) ^ 16) by (rewrite Ha; lra). lra.
  - assert (Hm : exp a * (1 - a) <= 1) by nra.
    assert (H16 : (exp a * (1 - a)) ^ 16 <= 1 ^ 16) by (apply pow_incr; split; nra).
    rewrite Rpow_mult_distr, pow1 in H16.
    assert (Hc : 49 / 100 < (1 - a) ^ 16) by (rewrite Ha; lra).
    assert (0 < exp a ^ 16) by (apply pow_lt; exact Hpos).
    nra.
Qed.

(** C2: for a non-empty record sequence the trust index is the clamped
    weighted sum 0.40 * weighted_score / 100 + 0.20 * consistency
    + 0.10 * diversity + 0.10 * volume + 0.20 * longevity; the five weights
    sum to 1 and the result lies in [0, 1]. *)
Theorem trust_index_formula : forall now eps rs,
  rs <> [] ->
  trust_index (aggregate now eps rs) =
    clamp01 (weighted_score now rs / 100 * (40 / 100) + consistency rs * (20 / 100)
             + diversity rs * (10 / 100) + volume rs * (10 / 100)
             + longevity now rs * (20 / 100)) /\
  40 / 100 + 20 / 100 + 10 / 100 + 10 / 100 + 20 / 100 = 1 /\
  0 <= trust_index (aggregate now eps rs) <= 1.
Proof.
  intros now eps rs Hne. destruct rs as [|r rest]; [congruence|].
  split; [reflexivity|]. split; [lra|].
  apply clamp01_bounds.
Qed.

Lemma trust_index_formula_witness :
  [sample_python] <> [] /\
  trust_index (aggregate 1700864000 (1 / 20) [sample_python]) =
    clamp01 (weighted_score 1700864000 [sample_python] / 100 * (40 / 100)
             + consistency [sample_python] * (20 / 100)
             + diversity [sample_python] * (10 / 100) + volume [sample_python] * (10 / 100)
             + longevity 1700864000 [sample_python] * (20 / 100)) /\
  40 / 100 + 20 / 100 + 10 / 100 + 10 / 100 + 20 / 100 = 1 /\
  0 <= trust_index (aggregate 1700864000 (1 / 20) [sample_python]) <= 1.
Proof.
  split; [discriminate|].
  apply (trust_index_formula 1700864000 (1 / 20) [sample_python]). discriminate.
Defined.

(** C5: the decay weight is exp(-0.693 * age_days / 180); at 180 days it
    lies within 0.01 of 1/2; and of two records with the same score the
    younger one (later timestamp) has the strictly larger weight. *)
Theorem decay_weight_half_life : forall now r1 r2,
  score r1 = score r2 -> (timestamp r2 < timestamp r1)%Z ->
  record_weight now r2 < record_weight now r1 /\
  record_weight now r1 = exp (- (693 / 1000) * age_days now r1 / 180) /\
  (forall age, decay_weight age = exp (- (693 / 1000) * age / 180)) /\
  49 / 100 < decay_weight 180 < 51 / 100.
Proof.
  intros now r1 r2 _ Hts. split; [|split; [reflexivity|split; [reflexivity|]]].
  - unfold record_weight, decay_weight, age_days. apply exp_increasing.
    apply IZR_lt in Hts. rewrite !minus_IZR. lra.
  - unfold decay_weight.
    replace (- (693 / 1000) * 180 / 180) with (- (693 / 1000)) by field.
    pose proof exp_0693_bounds as [H1 H2].
    pose proof (exp_opp_mult (693 / 1000)) as Hinv.
    pose proof (exp_pos (- (693 / 1000))) as Hp.
    split; nra.
Qed.

Lemma decay_weight_half_life_witness :
  score sample_python_newer = score sample_python /\
  (timestamp sample_python < timestamp sample_python_newer)%Z /\
  record_weight 1700864000 sample_python < record_weight 1700864000 sample_python_newer /\
  record_weight 1700864000 sample_python_newer
    = exp (- (693 / 1000) * age_days 1700864000 sample_python_newer / 180) /\
  (forall age, decay_weight age = exp (- (693 / 1000) * age / 180)) /\
  49 / 100 < decay_weight 180 < 51 / 100.
Proof.
  split; [reflexivity|]. split; [reflexivity|].
  apply (decay_weight_half_life 1700864000 sample_python_newer sample_python); reflexivity.
Defined.

Lemma distinct_domain_count_pos : forall r rs, (1 <= distinct_domain_count (r :: rs))%nat.
Proof.
  intros r rs. unfold distinct_domain_count, distinct_domains.
  assert (Hin : In (domain r) (nodup (list_eq_dec Z.eq_dec) (map domain (r :: rs))))
    by (apply nodup_In; left; reflexivity).
  destruct (nodup _ _); [contradiction|]. cbn [length]. lia.
Qed.

(** C6: the badge is (record_count >= 3) && (total_reputation >= 50) &&
    (distinct_domain_count >= 1); three records of one domain scoring at
    least 50 earn it, two records never do. *)
Theorem verification_badge_rule : forall now eps,
  (forall rs, verification_badge (aggregate now eps rs) =
     (3 <=? length rs)%nat && ge_bool (total_reputation (aggregate now eps rs)) 50
     && (1 <=? distinct_domain_count rs)%nat) /\
  (forall r1 r2 r3, domain r1 = domain r2 -> domain r2 = domain r3 ->
     Forall (fun r => (50 <= score r)%Z) [r1; r2; r3] ->
     verification_badge (aggregate now eps [r1; r2; r3]) = true) /\
  (forall r1 r2, verification_badge (aggregate now eps [r1; r2]) = false).
Proof.
  intros now eps. split; [|split].
  - intros [|r rest]; reflexivity.
  - intros r1 r2 r3 _ _ Hs.
    assert (Hlo : 50 <= weighted_score now [r1; r2; r3]).
    { apply weighted_score_lower; [discriminate|].
      apply Forall_impl with (P := fun r => (50 <= score r)%Z); [|exact Hs].
      intros r H. apply IZR_le in H. exact H. }
    cbn [aggregate verification_badge total_reputation].
    rewrite ge_bool_true by exact Hlo.
    pose proof (distinct_domain_count_pos r1 [r2; r3]) as Hd.
    apply Nat.leb_le in Hd. rewrite Hd. reflexivity.
  - intros r1 r2. reflexivity.
Qed.

Lemma verification_badge_rule_witness :
  domain sample_python = domain sample_python_newer /\
  domain sample_python_newer = domain sample_python /\
  Forall (fun r => (50 <= score r)%Z) [sample_python; sample_python_newer; sample_python] /\
  verification_badge
    (aggregate 1700864000 (1 / 20) [sample_python; sample_python_newer; sample_python]) = true.
Proof.
  split; [reflexivity|]. split; [reflexivity|].
  assert (Hs : Forall (fun r => (50 <= score r)%Z)
                 [sample_python; sample_python_newer; sample_python])
    by (repeat constructor; cbn; lia).
  split; [exact Hs|].
  destruct (verification_badge_rule 1700864000 (1 / 20)) as (_ & H3 & _).
  apply H3; [reflexivity | reflexivity | exact Hs].
Defined.

(** Bounds of the profile for records satisfying the score invariant. *)
Lemma aggregate_bounds : forall now eps rs,
  Forall (fun r => (0 <= score r <= 100)%Z) rs ->
  0 <= total_reputation (aggregate now eps rs) <= 100 /\
  0 <= trust_index (aggregate now eps rs) <= 1.
Proof.
  intros now eps rs H. destruct rs as [|r rest].
  - cbn. lra.
  - cbn [aggregate total_reputation trust_index]. split; [|apply clamp01_bounds].
    apply weighted_score_bounds; [discriminate|]. apply scores_in_range. exact H.
Qed.

(** C9: numeric edge cases have defined results: zero records give
    total_reputation 0, level minimal, trust_index 0, no badge and no
    domain scores; one record gives consistency 1 and longevity 0, and the
    trust index uses exactly those values. *)
Theorem aggregate_edge_cases : forall now eps,
  total_reputation (aggregate now eps []) = 0 /\
  credibility_level (aggregate now eps []) = minimal /\
  trust_index (aggregate now eps []) = 0 /\
  verification_badge (aggregate now eps []) = false /\
  domain_scores (aggregate now eps []) = [] /\
  (forall r,
     consistency [r] = 1 /\ longevity now [r] = 0 /\
     trust_index (aggregate now eps [r]) =
       clamp01 (weighted_score now [r] / 100 * (40 / 100) + 1 * (20 / 100)
                + diversity [r] * (10 / 100) + volume [r] * (10 / 100)
                + 0 * (20 / 100))).
Proof.
  intros now eps. repeat split; try reflexivity.
Qed.

End ReputationProofs.

(* ================================================================= *)
(** ** Proofs about the scoring engine *)

Module ScoringProofs.
Import Scoring.
Open Scope R_scope.

Section Props.

Variable Metadata : Type.

Lemma run_signals_length : forall (md : Metadata) ds,
  (length (run_signals Metadata md ds) <= length ds)%nat.
Proof.
  intros md ds. induction ds as [|d ds IH]; cbn [run_signals length]; [lia|].
  destruct (run_signal Metadata md d); cbn [length]; lia.
Qed.

Lemma run_signals_In : forall (md : Metadata) ds sg,
  In sg (run_signals Metadata md ds) ->
  exists d, In d ds /\ sd_eval d md = Some (raw_score sg, explanation sg) /\
            name sg = sd_name d /\ weight sg = sd_weight d /\
            weighted_score sg = raw_score sg * sd_weight d.
Proof.
  intros md ds sg. induction ds as [|d ds IH]; cbn [run_signals]; [intros []|].
  destruct (run_signal Metadata md d) as [sg'|] eqn:Hr.
  - intros [<- | Hin].
    + exists d. unfold run_signal in Hr.
      destruct (sd_eval d md) as [[raw e]|] eqn:He; [|discriminate].
      injection Hr as <-. cbn. repeat split; auto.
    + destruct (IH Hin) as (d' & ? & ?). exists d'. split; [right|]; tauto.
  - intros Hin. destruct (IH Hin) as (d' & ? & ?). exists d'. split; [right|]; tauto.
Qed.

Lemma run_signals_complete : forall (md : Metadata) ds d raw e,
  In d ds -> sd_eval d md = Some (raw, e) ->
  In (mkSignal (sd_name d) (sd_weight d) raw (raw * sd_weight d) e)
     (run_signals Metadata md ds).
Proof.
  intros md ds d raw e. induction ds as [|d' ds IH]; [intros []|].
  intros [<- | Hin] He; cbn [run_signals].
  - unfold run_signal at 1. rewrite He. left. reflexivity.
  - destruct (run_signal Metadata md d'); [right|]; apply IH; assumption.
Qed.

Lemma score_evidence_scored : forall tables classify hash kind (md : Metadata) res,
  score_evidence Metadata tables classify hash kind md = Scored res ->
  exists k, parse_kind kind = Some k /\
    signals res = run_signals Metadata md (tables k) /\
    signals res <> [] /\
    overall_score res = renormalize (signals res) /\
    confidence res = INR (length (signals res)) / INR (length (tables k)).
Proof.
  intros tables classify hash kind md res. unfold score_evidence.
  destruct (parse_kind kind) as [k|]; [|discriminate].
  destruct (run_signals Metadata md (tables k)) as [|sg sgs] eqn:Hs; [discriminate|].
  destruct (classify md) as [dom sub]. intros H. injection H as <-.
  exists k. cbn. repeat split; auto. discriminate.
Qed.

Lemma rsum_map_nonneg : forall (f : Signal -> R) sigs,
  (forall sg, In sg sigs -> 0 <= f sg) -> 0 <= rsum (map f sigs).
Proof.
  intros f sigs H. induction sigs as [|sg sigs IH]; unfold rsum in *; cbn [map fold_right]; [lra|].
  pose proof (H sg (or_introl eq_refl)).
  enough (0 <= fold_right Rplus 0 (map f sigs)) by lra.
  apply IH. intros sg' Hin. apply H. right. exact Hin.
Qed.

Lemma rsum_map_le : forall (f g : Signal -> R) sigs,
  (forall sg, In sg sigs -> f sg <= g sg) -> rsum (map f sigs) <= rsum (map g sigs).
Proof.
  intros f g sigs H. induction sigs as [|sg sigs IH]; unfold rsum in *; cbn [map fold_right]; [lra|].
  pose proof (H sg (or_introl eq_refl)).
  enough (fold_right Rplus 0 (map f sigs) <= fold_right Rplus 0 (map g sigs)) by lra.
  apply IH. intros sg' Hin. apply H. right. exact Hin.
Qed.

Lemma renormalize_bounds : forall sigs,
  (forall sg, In sg sigs -> 0 <= weight sg /\ 0 <= raw_score sg <= 1 /\
                            weighted_score sg = raw_score sg * weight sg) ->
  0 <= renormalize sigs <= 1.
Proof.
  intros sigs H. unfold renormalize.
  destruct (Req_dec_T (rsum (map weight sigs)) 0) as [|Hne]; [lra|].
  assert (Hw : 0 <= rsum (map weight sigs))
    by (apply rsum_map_nonneg; intros sg Hin; apply (H sg Hin)).
  apply ReputationProofs.ratio_bounds; [lra|]. split.
  - rewrite Rmult_0_l. apply rsum_map_nonneg. intros sg Hin.
    destruct (H sg Hin) as (? & ? & ->). nra.
  - rewrite Rmult_1_l. apply rsum_map_le. intros sg Hin.
    destruct (H sg Hin) as (? & ? & ->). nra.
Qed.

Lemma renormalize_spec : forall sigs,
  rsum (map weight sigs) <> 0 ->
  renormalize sigs * rsum (map weight sigs) = rsum (map weighted_score sigs).
Proof.
  intros sigs Hne. unfold renormalize.
  destruct (Req_dec_T (rsum (map weight sigs)) 0); [contradiction|].
  field. exact Hne.
Qed.

Lemma rsum_weighted_eq_weights : forall sigs,
  (forall sg, In sg sigs -> raw_score sg = 1 /\ weighted_score sg = raw_score sg * weight sg) ->
  rsum (map weighted_score sigs) = rsum (map weight sigs).
Proof.
  intros sigs H. induction sigs as [|sg sigs IH]; unfold rsum in *; cbn [map fold_right]; [lra|].
  destruct (H sg (or_introl eq_refl)) as [H1 H2]. rewrite IH, H2, H1 by (intros; apply H; right; assumption).
  lra.
Qed.

End Props.

Lemma sample_weights_nonneg : forall k d,
  In d (sample_tables k) -> 0 <= sd_weight d.
Proof.
  intros k d. unfold sample_tables, sample_signal_defs.
  intros [<- | [<- | []]]; cbn; lra.
Qed.

Lemma sample_raw_bounds : forall k d md raw e,
  In d (sample_tables k) -> sd_eval d md = Some (raw, e) -> 0 <= raw <= 1.
Proof.
  intros k d [b o] raw e. unfold sample_tables, sample_signal_defs.
  intros [<- | [<- | []]]; cbn.
  - intros H. injection H as <- _. destruct b; lra.
  - destruct o as [n|]; [|discriminate]. intros H. injection H as <- _.
    pose proof (pos_INR n). unfold Rmin.
    destruct (Rle_dec 1 (INR n / 10)) as [Hle|Hle]; [lra|].
    split; [|lra]. unfold Rdiv. apply Rmult_le_pos; lra.
Qed.

(** C8: whenever at least one evaluator runs (the call is [Scored]), the
    signals are exactly those of the evaluators that returned a value;
    overall_score is the sum of their weighted scores divided by the sum of
    their weights; an evaluator that returns 0 is kept, so only an absent
    result ([None]) skips a signal; and full raw scores give the ceiling 1. *)
Theorem overall_score_renormalized :
  forall (Metadata : Type) tables classify hash kind (md : Metadata) res,
  score_evidence Metadata tables classify hash kind md = Scored res ->
  exists k, parse_kind kind = Some k /\
    signals res = run_signals Metadata md (tables k) /\
    signals res <> [] /\
    (rsum (map weight (signals res)) <> 0 ->
       overall_score res =
       rsum (map weighted_score (signals res)) / rsum (map weight (signals res))) /\
    (forall d raw e, In d (tables k) -> sd_eval d md = Some (raw, e) ->
       In (mkSignal (sd_name d) (sd_weight d) raw (raw * sd_weight d) e) (signals res)) /\
    (forall sg, In sg (signals res) ->
       exists d, In d (tables k) /\ sd_eval d md = Some (raw_score sg, explanation sg) /\
                 weight sg = sd_weight d /\ weighted_score sg = raw_score sg * sd_weight d) /\
    ((forall sg, In sg (signals res) -> raw_score sg = 1) ->
       rsum (map weight (signals res)) <> 0 -> overall_score res = 1).
Proof.
  intros Metadata tables classify hash kind md res H.
  destruct (score_evidence_scored Metadata tables classify hash kind md res H)
    as (k & Hk & Hs & Hne & Ho & _).
  exists k. split; [exact Hk|]. split; [exact Hs|]. split; [exact Hne|].
  split; [|split; [|split]].
  - intros Hw. rewrite Ho. unfold renormalize.
    destruct (Req_dec_T (rsum (map weight (signals res))) 0); [contradiction|].
    reflexivity.
  - intros d raw e Hd He. rewrite Hs. apply run_signals_complete; assumption.
  - intros sg Hin. rewrite Hs in Hin.
    destruct (run_signals_In Metadata md (tables k) sg Hin) as (d & Hd & He & _ & Hw & Hws).
    exists d. auto.
  - intros H1 Hw. rewrite Ho.
    assert (Heq : rsum (map weighted_score (signals res)) = rsum (map weight (signals res))).
    { apply rsum_weighted_eq_weights. intros sg Hin. split; [apply H1; exact Hin|].
      rewrite Hs in Hin.
      destruct (run_signals_In Metadata md (tables k) sg Hin) as (d & _ & _ & _ & Hw' & Hws).
      rewrite Hws, Hw'. reflexivity. }
    pose proof (renormalize_spec (signals res) Hw) as Hr. rewrite Heq in Hr.
    apply Rmult_eq_reg_r with (rsum (map weight (signals res))); [|exact Hw].
    lra.
Qed.

Lemma overall_score_renormalized_witness :
  score_evidence sample_metadata sample_tables sample_classify sample_hash
    "repository" (false, None) = Scored sample_result_no_history /\
  In (mkSignal "readme_quality" (1 / 2) 0 (0 * (1 / 2)) "README")
     (signals sample_result_no_history).
Proof.
  assert (H : score_evidence sample_metadata sample_tables sample_classify sample_hash
                "repository" (false, None) = Scored sample_result_no_history)
    by reflexivity.
  split; [exact H|].
  destruct (overall_score_renormalized sample_metadata sample_tables sample_classify
              sample_hash "repository" (false, None) sample_result_no_history H)
    as (k & _ & _ & _ & _ & Hc & _).
  exact (Hc (mkSignalDef sample_metadata "readme_quality" (1 / 2)
               (fun md => Some (if fst md then 1 else 0, "README"%string)))
            0 "README"%string (or_introl eq_refl) eq_refl).
Defined.

(** C7: outputs stay within their declared bounds for all inputs, among
    them score 100 or 0 repeated, a single record or 1000 records: for
    records whose score lies in [0,100] (what the decoder admits),
    total_reputation lies in [0,100] and trust_index in [0,1]; for weight
    tables with non-negative weights and evaluators returning raw scores in
    [0,1], overall_score and confidence lie in [0,1]. *)
Theorem outputs_bounded :
  (forall now eps rs, Forall (fun r => (0 <= Codec.score r <= 100)%Z) rs ->
     0 <= Reputation.total_reputation (Reputation.aggregate now eps rs) <= 100 /\
     0 <= Reputation.trust_index (Reputation.aggregate now eps rs) <= 1) /\
  (forall (Metadata : Type) tables classify hash kind (md : Metadata) res,
     (forall k d, In d (tables k) -> 0 <= sd_weight d) ->
     (forall k d md' raw e, In d (tables k) -> sd_eval d md' = Some (raw, e) -> 0 <= raw <= 1) ->
     score_evidence Metadata tables classify hash kind md = Scored res ->
     0 <= overall_score res <= 1 /\ 0 <= confidence res <= 1).
Proof.
  split.
  - intros now eps rs H. apply ReputationProofs.aggregate_bounds. exact H.
  - intros Metadata tables classify hash kind md res Hw Hraw H.
    destruct (score_evidence_scored Metadata tables classify hash kind md res H)
      as (k & _ & Hs & Hne & Ho & Hc).
    split.
    + rewrite Ho. apply renormalize_bounds. intros sg Hin. rewrite Hs in Hin.
      destruct (run_signals_In Metadata md (tables k) sg Hin) as (d & Hd & He & _ & Hw' & Hws).
      rewrite Hw'. split; [apply (Hw k d Hd)|]. split; [apply (Hraw k d md _ _ Hd He)|].
      exact Hws.
    + rewrite Hc. pose proof (run_signals_length Metadata md (tables k)) as Hl.
      rewrite <- Hs in Hl.
      destruct (signals res) as [|sg sgs]; [contradiction|].
      assert (Hpos : 0 < INR (length (sg :: sgs))) by (apply lt_0_INR; cbn; lia).
      assert (Hle : INR (length (sg :: sgs)) <= INR (length (tables k))) by (apply le_INR; exact Hl).
      apply ReputationProofs.ratio_bounds; [lra|]. lra.
Qed.

Lemma outputs_bounded_witness :
  Forall (fun r => (0 <= Codec.score r <= 100)%Z) [Codec.sample_python] /\
  0 <= Reputation.total_reputation (Reputation.aggregate 1700864000 (1 / 20) [Codec.sample_python]) <= 100 /\
  0 <= overall_score sample_result_no_history <= 1.
Proof.
  assert (Hf : Forall (fun r => (0 <= Codec.score r <= 100)%Z) [Codec.sample_python])
    by (repeat constructor; cbn; lia).
  split; [exact Hf|]. split.
  - apply (proj1 outputs_bounded 1700864000%Z (1 / 20) [Codec.sample_python] Hf).
  - assert (H : score_evidence sample_metadata sample_tables sample_classify sample_hash
                  "repository" (false, None) = Scored sample_result_no_history)
      by reflexivity.
    apply (proj2 outputs_bounded sample_metadata sample_tables sample_classify sample_hash
             "repository"%string (false, None) sample_result_no_history
             sample_weights_nonneg sample_raw_bounds H).
Defined.

End ScoringProofs.

(* ================================================================= *)
(** ** Proofs about the frontend *)

Module FrontendProofs.
Import Frontend.
Open Scope string_scope.

Lemma if_Rle_dec_IZR : forall (A : Type) (a b : Z) (x y : A),
  (if Rle_dec (IZR a) (IZR b) then x else y) = (if (a <=? b)%Z then x else y).
Proof.
  intros A a b x y. destruct (Rle_dec (IZR a) (IZR b)) as [H|H]; destruct (Z.leb_spec a b); auto.
  - apply le_IZR in H. lia.
  - exfalso. apply H. apply IZR_le. lia.
Qed.

(** C3: every tier computation of the program (SubmitPage and
    ExplorerPage, VerifierPage's profile and record tiers, ScoreCircle's
    label and colour, and the reputation engine's credibility_level) maps a
    score to exceptional (>= 90), strong (70..89), moderate (50..69),
    developing (30..49) or minimal, each range inclusive on its lower bound;
    this holds for every integer, in particular for every one in [0,100]. *)
Theorem tier_mapping_agrees : forall s : Z,
  submit_tierLabel s = spec_tier s /\
  explorer_tier s = spec_tier s /\
  verifier_tierLabel s = spec_tier s /\
  verifier_rTier s = spec_tier s /\
  scoreCircle_tierLabel s = capitalize (spec_tier s) /\
  scoreCircle_tierColor s = "var(--tier-" ++ spec_tier s ++ ")" /\
  Reputation.level_name (Reputation.level_of (IZR s)) = spec_tier s.
Proof.
  intros s.
  unfold submit_tierLabel, explorer_tier, verifier_tierLabel, verifier_rTier,
    scoreCircle_tierLabel, scoreCircle_tierColor, spec_tier, Reputation.level_of.
  rewrite !if_Rle_dec_IZR.
  destruct (Z.leb_spec 90 s); [repeat split; reflexivity|].
  rewrite (proj2 (Z.leb_le s 89)) by lia. rewrite andb_true_r.
  destruct (Z.leb_spec 70 s); [repeat split; reflexivity|].
  rewrite (proj2 (Z.leb_le s 69)) by lia. rewrite andb_true_r.
  destruct (Z.leb_spec 50 s); [repeat split; reflexivity|].
  rewrite (proj2 (Z.leb_le s 49)) by lia. rewrite andb_true_r.
  destruct (Z.leb_spec 30 s); repeat split; reflexivity.
Qed.

Lemma js_or_falsy : forall v d, truthy v = false -> js_or v d = d.
Proof.
  intros [v|] d; cbn; [|reflexivity].
  destruct (string_dec v ""); [reflexivity | discriminate].
Qed.

Lemma js_or_nonempty : forall v d, v <> "" -> js_or (Some v) d = v.
Proof. intros v d H. cbn. destruct (string_dec v ""); [contradiction | reflexivity]. Qed.

Lemma truthy_nonempty : forall v, v <> "" -> truthy (Some v) = true.
Proof. intros v H. cbn. destruct (string_dec v ""); [contradiction | reflexivity]. Qed.

Lemma repeat_char_length : forall c n, String.length (repeat_char c n) = n.
Proof. intros c n. induction n as [|n IH]; cbn; [reflexivity | rewrite IH; reflexivity]. Qed.

(** C10 (counterexample): an analysis whose metadata carries the
    artifact_hash "abc" is submitted with that hash, of length 3, so the
    submitted hash does not always have length 64. *)
Lemma submit_hash_length_counterexample :
  artifactHash (submit_args short_hash_analysis 1700000000000) = "abc" /\
  String.length (artifactHash (submit_args short_hash_analysis 1700000000000)) <> 64%nat.
Proof.
  assert (H : artifactHash (submit_args short_hash_analysis 1700000000000) = "abc")
    by reflexivity.
  split; [exact H|]. rewrite H. cbn. discriminate.
Qed.

(** C10 (amended): handleSubmit's arguments: the score is Math.round of
    overall_score * 100 (the nearest integer, halves rounded up); the domain
    is that of the first domain entry, or "general" when there is none or it
    is empty, with ":" and the subdomain appended exactly when the entry's
    subdomain is a non-empty string; the artifact hash is the first
    non-empty one of metadata.artifact_hash, sha256 and project_hash, and
    only when all three are missing or empty is it 64 '0' characters, of
    length 64. *)
Theorem submit_args_spec : forall a now_ms,
  (IZR (scoreVal (submit_args a now_ms)) <= overall_score a * 100 + / 2 <
     IZR (scoreVal (submit_args a now_ms)) + 1)%R /\
  (first_domain a = None -> domainVal (submit_args a now_ms) = "general") /\
  (forall e, first_domain a = Some e -> truthy (de_subdomain e) = false ->
     domainVal (submit_args a now_ms) = js_or (de_domain e) "general") /\
  (forall e sub, first_domain a = Some e -> de_subdomain e = Some sub -> sub <> "" ->
     domainVal (submit_args a now_ms) = js_or (de_domain e) "general" ++ ":" ++ sub) /\
  (forall h, meta_field md_artifact_hash a = Some h -> h <> "" ->
     artifactHash (submit_args a now_ms) = h) /\
  (truthy (meta_field md_artifact_hash a) = false ->
     forall h, meta_field md_sha256 a = Some h -> h <> "" ->
     artifactHash (submit_args a now_ms) = h) /\
  (truthy (meta_field md_artifact_hash a) = false ->
     truthy (meta_field md_sha256 a) = false ->
     forall h, meta_field md_project_hash a = Some h -> h <> "" ->
     artifactHash (submit_args a now_ms) = h) /\
  (truthy (meta_field md_artifact_hash a) = false ->
     truthy (meta_field md_sha256 a) = false ->
     truthy (meta_field md_project_hash a) = false ->
     artifactHash (submit_args a now_ms) = repeat_char "0" 64 /\
     String.length (artifactHash (submit_args a now_ms)) = 64%nat).
Proof.
  intros a now_ms. unfold submit_args. cbv zeta. cbn [scoreVal domainVal artifactHash].
  split; [|split; [|split; [|split; [|split; [|split; [|split]]]]]].
  - unfold math_round.
    pose proof (base_Int_part (overall_score a * 100 + / 2)) as [H1 H2]. lra.
  - intros ->. reflexivity.
  - intros e -> Hs. rewrite Hs. reflexivity.
  - intros e sub -> Hs Hne. rewrite Hs, truthy_nonempty, js_or_nonempty by exact Hne.
    reflexivity.
  - intros h -> Hne. apply js_or_nonempty. exact Hne.
  - intros H1 h Hh Hne. rewrite (js_or_falsy _ _ H1), Hh. apply js_or_nonempty. exact Hne.
  - intros H1 H2 h Hh Hne. rewrite (js_or_falsy _ _ H1), (js_or_falsy _ _ H2), Hh.
    apply js_or_nonempty. exact Hne.
  - intros H1 H2 H3. rewrite (js_or_falsy _ _ H1), (js_or_falsy _ _ H2), (js_or_falsy _ _ H3).
    split; [reflexivity | apply repeat_char_length].
Qed.

Lemma submit_args_spec_witness :
  truthy (meta_field md_artifact_hash subdomain_analysis) = false /\
  truthy (meta_field md_sha256 subdomain_analysis) = false /\
  truthy (meta_field md_project_hash subdomain_analysis) = false /\
  String.length (artifactHash (submit_args subdomain_analysis 1700000000000)) = 64%nat /\
  domainVal (submit_args subdomain_analysis 1700000000000) = "web3:defi".
Proof.
  destruct (submit_args_spec subdomain_analysis 1700000000000)
    as (_ & _ & _ & Hd & _ & _ & _ & Hh).
  split; [reflexivity|]. split; [reflexivity|]. split; [reflexivity|]. split.
  - apply (Hh eq_refl eq_refl eq_refl).
  - apply (Hd (mkDomainEntry (Some "web3") (Some "defi")) "defi" eq_refl eq_refl).
    discriminate.
Defined.

End FrontendProofs.

(* ================================================================= *)
(** ** Proofs about the API client *)

Module ClientProofs.
Import Frontend Client.
Open Scope R_scope.

Lemma attempt_retryable : forall Json (r : Response Json),
  retryable Json r = true ->
  exists e, attempt Json r = inr e /\ err_name e = "APIError"%string /\
            retry_status (err_status e) = true.
Proof.
  intros Json [b|st txt det|m|m]; cbn; try discriminate.
  intros H. eexists. split; [reflexivity|]. split; [reflexivity|]. exact H.
Qed.

Lemma attempt_not_retryable : forall Json (r : Response Json) retries,
  retryable Json r = false ->
  fetch_with_retry Json (fun i => r) retries = ([], final_outcome Json r)
  /\ forall resp, resp O = r -> fetch_with_retry Json resp retries = ([], final_outcome Json r).
Proof.
  intros Json r retries Hr.
  assert (H : forall resp, resp O = r -> fetch_with_retry Json resp retries = ([], final_outcome Json r)).
  { intros resp H0. destruct retries as [|n]; cbn [fetch_with_retry]; rewrite H0;
      destruct r as [[v|m]|st txt det|m|m]; cbn; try reflexivity;
      cbn in Hr; rewrite ?Hr; reflexivity. }
  split; [apply H; reflexivity | exact H].
Qed.

(** The call at a fetch it does not retry, whatever the retries left. *)
Lemma fetch_stop : forall Json resp n,
  (n = O \/ retryable Json (resp O) = false) ->
  fetch_with_retry Json resp n = ([], final_outcome Json (resp O)).
Proof.
  intros Json resp n [-> | Hr].
  - cbn [fetch_with_retry]. destruct (resp O) as [[v|m]|st txt det|m|m]; reflexivity.
  - apply (proj2 (attempt_not_retryable Json (resp O) n Hr)). reflexivity.
Qed.

Lemma fetch_retry : forall Json resp n,
  retryable Json (resp O) = true ->
  fetch_with_retry Json resp (S n) =
  (retry_delay (S n) :: fst (fetch_with_retry Json (fun i => resp (S i)) n),
   snd (fetch_with_retry Json (fun i => resp (S i)) n)).
Proof.
  intros Json resp n Hr. cbn [fetch_with_retry].
  destruct (resp O) as [[v|m]|st txt det|m|m]; cbn in Hr |- *; try discriminate.
  rewrite Hr. destruct (fetch_with_retry Json (fun i => resp (S i)) n); reflexivity.
Qed.

Lemma fetch_waits : forall Json n resp,
  exists k, (k <= n)%nat /\ fst (fetch_with_retry Json resp n) = firstn k (backoff n) /\
    (forall resp', (forall i, (i <= k)%nat -> resp' i = resp i) ->
       fetch_with_retry Json resp' n = fetch_with_retry Json resp n).
Proof.
  intros Json n. induction n as [|n IH]; intros resp.
  - exists O. rewrite (fetch_stop Json resp O (or_introl eq_refl)). split; [lia|].
    split; [reflexivity|]. intros resp' H.
    rewrite (fetch_stop Json resp' O (or_introl eq_refl)), (H O (le_n _)). reflexivity.
  - destruct (retryable Json (resp O)) eqn:Hr.
    + destruct (IH (fun i => resp (S i))) as (k & Hk & Hw & Hind).
      exists (S k). split; [lia|]. split.
      { rewrite (fetch_retry Json resp n Hr). cbn [fst]. rewrite Hw. reflexivity. }
      intros resp' H. rewrite (fetch_retry Json resp n Hr). assert (H0 : resp' O = resp O) by (apply H; lia).
      rewrite (fetch_retry Json resp' n) by (rewrite H0; exact Hr).
      rewrite (Hind (fun i => resp' (S i))) by (intros i Hi; apply H; lia). reflexivity.
    + exists O. rewrite (fetch_stop Json resp (S n) (or_intror Hr)). split; [lia|].
      split; [reflexivity|]. intros resp' H. assert (H0 : resp' O = resp O) by (apply H; lia).
      rewrite (fetch_stop Json resp' (S n)) by (right; rewrite H0; exact Hr).
      rewrite H0. reflexivity.
Qed.

Lemma backoff_3 : backoff 3 = [1000; 2000; 4000].
Proof.
  cbn [backoff]. unfold retry_delay, MAX_RETRIES.
  replace (3 - Z.of_nat 3)%Z with 0%Z by reflexivity.
  replace (3 - Z.of_nat 2)%Z with 1%Z by reflexivity.
  replace (3 - Z.of_nat 1)%Z with 2%Z by reflexivity.
  unfold powerRZ. simpl.
  f_equal; [|f_equal; [|f_equal]]; lra.
Qed.

(** X1: a call through [api] fetches at most four times: it waits 1000,
    2000 and 4000 ms before its retries, in that order, and stops after
    some [k] retries; what the fetches after the [k]-th retry would give
    does not matter to it. *)
Theorem api_fetch_backoff : forall Json (resp : nat -> Response Json),
  exists k, (k <= 3)%nat /\
    fst (api_fetch Json resp) = firstn k [1000; 2000; 4000] /\
    (forall resp', (forall i, (i <= k)%nat -> resp' i = resp i) ->
       api_fetch Json resp' = api_fetch Json resp).
Proof.
  intros Json resp. unfold api_fetch, MAX_RETRIES. rewrite <- backoff_3.
  apply fetch_waits.
Qed.

(** X2: [fetchWithRetry] retries exactly the replies with status 429 or
    5xx while retries are left: when the first [k] fetches give such
    replies and the next one is not retried (retries are used up, or it is
    a success, another HTTP error, a parse or network error, or the
    timeout), the call waits the first [k] delays and ends as that fetch
    does, a timeout becoming the APIError "Request timeout" with status
    408. *)
Theorem fetch_with_retry_outcome : forall Json (resp : nat -> Response Json) n k,
  (k <= n)%nat ->
  (forall i, (i < k)%nat -> retryable Json (resp i) = true) ->
  (k = n \/ retryable Json (resp k) = false) ->
  fetch_with_retry Json resp n = (firstn k (backoff n), final_outcome Json (resp k)).
Proof.
  intros Json resp n k. revert resp n. induction k as [|k IH]; intros resp n Hk Hr Hend.
  - rewrite fetch_stop; [reflexivity|]. destruct Hend as [<- | H]; [left | right]; auto.
  - destruct n as [|n]; [lia|].
    rewrite (fetch_retry Json resp n) by (apply Hr; lia).
    rewrite (IH (fun i => resp (S i)) n); [reflexivity | lia | |].
    + intros i Hi. apply Hr. lia.
    + destruct Hend as [H | H]; [left; lia | right; exact H].
Qed.

Lemma fetch_with_retry_outcome_witness :
  fetch_with_retry nat sample_replies 3 =
  (firstn 2 (backoff 3), final_outcome nat (sample_replies 2)).
Proof.
  apply (fetch_with_retry_outcome nat sample_replies 3 2).
  - lia.
  - intros i Hi. destruct i as [|[|i]]; [reflexivity | reflexivity | lia].
  - right. reflexivity.
Defined.

End ClientProofs.

(* ================================================================= *)
(** ** Proofs about the wallet context *)

Module WalletProofs.
Import Frontend Wallet.
Open Scope string_scope.

Lemma truthy_some : forall a, truthy (Some a) = true <-> a <> "".
Proof.
  intros a. cbn. destruct (string_dec a ""); split; congruence.
Qed.

Lemma init_consistent : forall s, wallet_consistent (init s).
Proof.
  intros [a|]; unfold wallet_consistent, init; cbn [address connected storage].
  - destruct (string_dec a "") as [->|Hne].
    + right. cbn. repeat split.
    + left. cbn. destruct (string_dec a ""); [contradiction|].
      split; [reflexivity|]. exists a. auto.
  - right. cbn. repeat split.
Qed.

Lemma step_consistent : forall st op,
  pera_op op -> wallet_consistent st -> wallet_consistent (step st op).
Proof.
  intros st op Hop Hst. destruct op as [o| |a|]; cbn [step].
  - destruct o as [| |accounts]; cbn [connect_wallet fst].
    + destruct Hst as [(H1 & a & H2 & H3 & H4) | (H1 & H2 & H3)];
        [left | right]; cbn; [split; [exact H1|]; exists a; auto | auto].
    + destruct Hst as [(H1 & a & H2 & H3 & H4) | (H1 & H2 & H3)];
        [left | right]; cbn; [split; [exact H1|]; exists a; auto | auto].
    + destruct Hop as (a & Ha & Hne). rewrite Ha. left. cbn.
      split; [reflexivity|]. exists a. auto.
  - right. cbn. repeat split.
  - unfold set_manual_wallet. destruct (string_dec a "") as [->|Hne].
    + right. cbn. repeat split.
    + assert (Ht : truthy (Some a) = true) by (apply truthy_some; exact Hne).
      rewrite Ht. left. cbn. split; [reflexivity|]. exists a. auto.
  - apply init_consistent.
Qed.

Lemma run_consistent : forall ops st,
  Forall pera_op ops -> wallet_consistent st -> wallet_consistent (run st ops).
Proof.
  intros ops. induction ops as [|op ops IH]; intros st Hops Hst; [exact Hst|].
  inversion Hops as [|? ? Hop Hrest]; subst. cbn [run fold_left].
  apply IH; [exact Hrest|]. apply step_consistent; assumption.
Qed.

Lemma reload_consistent : forall st,
  wallet_consistent st ->
  address (init (storage st)) = address st /\ connected (init (storage st)) = connected st.
Proof.
  intros st [(H1 & a & H2 & H3 & H4) | (H1 & H2 & H3)]; rewrite ?H1, ?H2, ?H4; cbn.
  - destruct (string_dec a ""); [contradiction|]. auto.
  - destruct (storage st) as [s|]; cbn in H3 |- *; [|auto].
    destruct (string_dec s ""); [auto | discriminate].
Qed.

(** X3: in every session that starts from whatever the storage holds and
    goes through connections (Pera handing back a non-empty first
    account), failed connections, disconnections, manual entries and page
    reloads, the context is connected exactly when a non-empty address is
    shown and stored, and a reload restores the address and the connected
    flag. *)
Theorem wallet_session_persistence : forall stored ops,
  Forall pera_op ops ->
  wallet_consistent (run (init stored) ops) /\
  address (init (storage (run (init stored) ops))) = address (run (init stored) ops) /\
  connected (init (storage (run (init stored) ops))) = connected (run (init stored) ops).
Proof.
  intros stored ops Hops.
  assert (H : wallet_consistent (run (init stored) ops))
    by (apply run_consistent; [exact Hops | apply init_consistent]).
  split; [exact H|]. apply reload_consistent. exact H.
Qed.

Lemma wallet_session_persistence_witness :
  Forall pera_op sample_session /\
  address (init (storage (run (init None) sample_session))) =
  address (run (init None) sample_session).
Proof.
  assert (Hops : Forall pera_op sample_session).
  { repeat constructor. exists "ALGOADDR". split; [reflexivity | discriminate]. }
  split; [exact Hops|].
  apply (wallet_session_persistence None sample_session Hops).
Defined.

(** X4: when Pera hands back no account, [connectWallet] returns
    undefined but marks the context connected with an undefined address
    and stores the text "undefined", which a reload then shows as a
    connected wallet named "undefined". *)
Theorem connect_no_accounts : forall st,
  connect_wallet st (ConnectAccounts []) =
    (mkWalletState None true false true (Some "undefined"), Some None) /\
  address (init (storage (fst (connect_wallet st (ConnectAccounts []))))) = Some "undefined" /\
  connected (init (storage (fst (connect_wallet st (ConnectAccounts []))))) = true /\
  truthy_ret (snd (connect_wallet st (ConnectAccounts []))) = false.
Proof. intros st. repeat split. Qed.

(** X5: Navbar's connect button navigates to the dashboard exactly when
    the connection gives a non-empty first account, and then the context
    is connected with that address stored; when the SDK is missing or the
    connection fails, nothing is navigated to and address, connected flag
    and storage are unchanged. *)
Theorem navbar_connect_navigation : forall st o,
  (snd (navbar_handle_connect st o) = Some "/dashboard" <->
   exists accounts a, o = ConnectAccounts accounts /\ hd_error accounts = Some a /\ a <> "") /\
  (snd (navbar_handle_connect st o) = Some "/dashboard" ->
   exists a, a <> "" /\ address (fst (navbar_handle_connect st o)) = Some a /\
     connected (fst (navbar_handle_connect st o)) = true /\
     storage (fst (navbar_handle_connect st o)) = Some a) /\
  ((o = SdkUnavailable \/ o = ConnectFailed) ->
   snd (navbar_handle_connect st o) = None /\
   address (fst (navbar_handle_connect st o)) = address st /\
   connected (fst (navbar_handle_connect st o)) = connected st /\
   storage (fst (navbar_handle_connect st o)) = storage st).
Proof.
  intros st o. unfold navbar_handle_connect.
  destruct o as [| |accounts]; cbn [connect_wallet fst snd truthy_ret].
  - split; [split; [discriminate | intros (? & ? & H & _); discriminate]|].
    split; [discriminate|]. intros _. auto.
  - split; [split; [discriminate | intros (? & ? & H & _); discriminate]|].
    split; [discriminate|]. intros _. auto.
  - destruct (hd_error accounts) as [a|] eqn:Ha; cbn.
    + destruct (string_dec a "") as [->|Hne].
      * split; [split; [discriminate|] | split; [discriminate|]].
        -- intros (acc & a' & Heq & Ha' & Hne). injection Heq as <-. congruence.
        -- intros [H|H]; discriminate.
      * split; [split; [intros _; exists accounts, a; auto | reflexivity] |].
        split; [intros _; exists a; auto|]. intros [H|H]; discriminate.
    + split; [split; [discriminate|] | split; [discriminate|]].
      * intros (acc & a' & Heq & Ha' & Hne). injection Heq as <-. congruence.
      * intros [H|H]; discriminate.
Qed.

End WalletProofs.

(* ================================================================= *)
(** ** Proofs about the page handlers *)

Module PagesProofs.
Import Frontend Client Pages.
Open Scope string_scope.

Lemma wallet_rejected_length : forall w,
  wallet_rejected w = (String.length w <? 58)%nat.
Proof.
  intros w. unfold wallet_rejected. cbn [truthy].
  destruct (string_dec w "") as [->|]; reflexivity.
Qed.

(** X6: the dashboard lookup takes [walletAddr || address || walletInput];
    when it has fewer than 58 characters nothing is fetched and the state
    is kept; otherwise exactly [/reputation/w] and [/wallet/w] are
    fetched, loading ends, and either both replies succeeded and the
    reputation and records (or [] without a records field) are shown with
    no error, or neither reputation nor any record is left shown; a failed
    reputation reply is the one reported, as its detail or "Reputation
    fetch failed". *)
Theorem handle_lookup_spec : forall RepData RecordData st walletAddr address walletInput
    (f : Fetched (HttpReply RepData * HttpReply (option (list RecordData)))),
  ((String.length (chosen_wallet walletAddr address walletInput) < 58)%nat ->
     handle_lookup RepData RecordData st walletAddr address walletInput f = (st, [])) /\
  ((58 <= String.length (chosen_wallet walletAddr address walletInput))%nat ->
     snd (handle_lookup RepData RecordData st walletAddr address walletInput f) =
       [API ++ "/reputation/" ++ chosen_wallet walletAddr address walletInput;
        API ++ "/wallet/" ++ chosen_wallet walletAddr address walletInput] /\
     loading RepData RecordData (fst (handle_lookup RepData RecordData st walletAddr address walletInput f)) = false /\
     ((exists repData recs,
         f = Replied (ReplyOk (inl repData), ReplyOk (inl recs)) /\
         reputation RepData RecordData (fst (handle_lookup RepData RecordData st walletAddr address walletInput f)) = Some repData /\
         records RepData RecordData (fst (handle_lookup RepData RecordData st walletAddr address walletInput f)) =
           match recs with Some l => l | None => [] end /\
         error RepData RecordData (fst (handle_lookup RepData RecordData st walletAddr address walletInput f)) = "") \/
      (reputation RepData RecordData (fst (handle_lookup RepData RecordData st walletAddr address walletInput f)) = None /\
       records RepData RecordData (fst (handle_lookup RepData RecordData st walletAddr address walletInput f)) = [])) /\
     (forall status det wal, f = Replied (ReplyNotOk status det, wal) ->
        error RepData RecordData (fst (handle_lookup RepData RecordData st walletAddr address walletInput f)) =
          js_or det "Reputation fetch failed")).
Proof.
  intros RepData RecordData st walletAddr address walletInput f. unfold handle_lookup.
  rewrite wallet_rejected_length. split.
  - intros H. apply Nat.ltb_lt in H. rewrite H. reflexivity.
  - intros H. assert (H' : (String.length (chosen_wallet walletAddr address walletInput) <? 58)%nat = false)
      by (apply Nat.ltb_ge; exact H).
    rewrite H'. cbn [fst snd]. split; [reflexivity|].
    destruct f as [[rep wal]|msg].
    + destruct rep as [[repData|m]|s det]; destruct wal as [[recs|m']|s' det'];
        cbn [loading reputation records error];
        (split; [reflexivity|]);
        (split; [try (left; exists repData, recs; repeat split; reflexivity);
                 right; split; reflexivity|]);
        intros status det0 wal0 Heq; try discriminate;
        injection Heq as _ -> _; reflexivity.
    + cbn. split; [reflexivity|]. split; [right; split; reflexivity|].
      intros status det0 wal0 Heq; discriminate.
Qed.

(** X7: the verifier takes [walletAddr || address || walletInput]; with
    fewer than 58 characters nothing is fetched and the state is kept;
    otherwise only [/verify/w] is fetched, loading ends, and the profile
    is shown exactly when the reply is ok and parses, with no error; a
    reply that is not ok shows no profile and reports its detail or
    "Verification failed". *)
Theorem handle_verify_spec : forall VerifyData st walletAddr address walletInput
    (f : Fetched (HttpReply VerifyData)),
  ((String.length (chosen_wallet walletAddr address walletInput) < 58)%nat ->
     handle_verify VerifyData st walletAddr address walletInput f = (st, [])) /\
  ((58 <= String.length (chosen_wallet walletAddr address walletInput))%nat ->
     snd (handle_verify VerifyData st walletAddr address walletInput f) =
       [API ++ "/verify/" ++ chosen_wallet walletAddr address walletInput] /\
     vloading VerifyData (fst (handle_verify VerifyData st walletAddr address walletInput f)) = false /\
     (forall d, vdata VerifyData (fst (handle_verify VerifyData st walletAddr address walletInput f)) = Some d <->
                f = Replied (ReplyOk (inl d))) /\
     (forall d, f = Replied (ReplyOk (inl d)) ->
        verror VerifyData (fst (handle_verify VerifyData st walletAddr address walletInput f)) = "") /\
     (forall status det, f = Replied (ReplyNotOk status det) ->
        verror VerifyData (fst (handle_verify VerifyData st walletAddr address walletInput f)) =
          js_or det "Verification failed")).
Proof.
  intros VerifyData st walletAddr address walletInput f. unfold handle_verify.
  rewrite wallet_rejected_length. split.
  - intros H. apply Nat.ltb_lt in H. rewrite H. reflexivity.
  - intros H. assert (H' : (String.length (chosen_wallet walletAddr address walletInput) <? 58)%nat = false)
      by (apply Nat.ltb_ge; exact H).
    rewrite H'. cbn [fst snd]. split; [reflexivity|].
    destruct f as [[[d0|m]|s det0]|msg]; cbn [vloading vdata verror];
      (split; [reflexivity|]);
      (split; [intros d; split; intros Heq; try discriminate;
               injection Heq as ->; reflexivity|]);
      (split; [intros d Heq; try discriminate; reflexivity|]);
      intros status det Heq; try discriminate; injection Heq as _ ->; reflexivity.
Qed.


(** X9: once an analysis is loaded and [address || walletInput] has at
    least 58 characters, whatever the reply of [/submit/prepare], a signed
    and executed submission calls application 755779875 from that wallet
    with [submit_args] of the analysis, and the result shown reports the
    first transaction id, the very domain and score sent on chain, status
    "confirmed" and the explorer link of that transaction; the analysis is
    kept and no error remains. *)
Theorem handle_submit_success : forall st a address walletInput r txIDs now_ms,
  analysis st = Some a ->
  (58 <= String.length (js_or (Some address) walletInput))%nat ->
  handle_submit st address walletInput true (Replied r) (Executed txIDs) now_ms =
  (mkSubmitPage (Some a)
     (Some (mkSubmitResult true (hd_error txIDs) (domainVal (submit_args a now_ms))
              (scoreVal (submit_args a now_ms)) "confirmed" (EXPLORER ++ js_text (hd_error txIDs))))
     (analyzing st) false "" (analyzeTime st),
   Some (mkMethodCall APP_ID (submit_args a now_ms)
           (js_or (Some address) walletInput) (js_or (Some address) walletInput))).
Proof.
  intros st a address walletInput r txIDs now_ms Ha Hlen. unfold handle_submit.
  rewrite Ha, wallet_rejected_length.
  replace (String.length (js_or (Some address) walletInput) <? 58)%nat with false
    by (symmetry; apply Nat.ltb_ge; exact Hlen).
  reflexivity.
Qed.

(** X10: [handleSubmit] does nothing without an analysis; with a wallet
    shorter than 58 characters it only reports "Please connect your wallet
    first." and composes no call; it never changes the analysis; any call
    it composes carries [submit_args] of the analysis from the chosen
    wallet to application 755779875; and the submission result changes
    only when the prepare fetch settled, a Pera signer is present and the
    execution gave transaction ids. Without a Pera signer, a composed
    call ends in the error asking to reconnect. *)
Theorem handle_submit_guards : forall st address walletInput pera prepare chain now_ms,
  (analysis st = None ->
     handle_submit st address walletInput pera prepare chain now_ms = (st, None)) /\
  (analysis st <> None -> (String.length (js_or (Some address) walletInput) < 58)%nat ->
     handle_submit st address walletInput pera prepare chain now_ms =
       (set_error st "Please connect your wallet first.", None)) /\
  analysis (fst (handle_submit st address walletInput pera prepare chain now_ms)) = analysis st /\
  (forall a call, analysis st = Some a ->
     snd (handle_submit st address walletInput pera prepare chain now_ms) = Some call ->
     call = mkMethodCall APP_ID (submit_args a now_ms)
              (js_or (Some address) walletInput) (js_or (Some address) walletInput)) /\
  (submitResult (fst (handle_submit st address walletInput pera prepare chain now_ms)) <> submitResult st ->
     pera = true /\ (exists r, prepare = Replied r) /\ (exists txIDs, chain = Executed txIDs)) /\
  (pera = false ->
     snd (handle_submit st address walletInput pera prepare chain now_ms) <> None ->
     serror (fst (handle_submit st address walletInput pera prepare chain now_ms)) = no_signer_message).
Proof.
  intros st address walletInput pera prepare chain now_ms. unfold handle_submit.
  rewrite wallet_rejected_length.
  destruct (analysis st) as [a|] eqn:Ha.
  - destruct (String.length (js_or (Some address) walletInput) <? 58)%nat eqn:Hl.
    + split; [intros H; discriminate|]. split; [intros _ _; reflexivity|].
      cbn [fst snd]. split; [first [exact Ha | reflexivity]|]. split; [intros a' call _ H; discriminate|].
      split; [intros H; contradiction|]. intros _ H; contradiction.
    + split; [intros H; discriminate|].
      split; [intros _ H; apply Nat.ltb_lt in H; congruence|].
      destruct prepare as [r|m]; [|cbn; split; [first [exact Ha | reflexivity]|]; split; [intros a' call _ H; discriminate|];
                                     split; [intros H; contradiction|]; intros _ H; contradiction].
      destruct chain as [m|m|txIDs]; destruct pera; cbn [negb fst snd analysis submitResult serror];
        (split; [first [exact Ha | reflexivity]|]);
        (split; [intros a' call Ha' H; injection Ha' as <-;
                 first [discriminate | injection H as <-; reflexivity]|]);
        (split; [intros H; first [contradiction | split; [reflexivity|]; split; eexists; reflexivity]|]);
        intros Hp H; first [discriminate | contradiction | reflexivity].
  - split; [intros _; reflexivity|]. split; [intros H; contradiction|].
    cbn [fst snd]. split; [first [exact Ha | reflexivity]|]. split; [intros a' call H; discriminate|].
    split; [intros H; contradiction|]. intros _ H; contradiction.
Qed.

Lemma handle_submit_success_witness :
  analysis (mkSubmitPage (Some subdomain_analysis) None false false "" "1.2") = Some subdomain_analysis /\
  handle_submit (mkSubmitPage (Some subdomain_analysis) None false false "" "1.2")
    "ABCDEFGHIJKLMNOPQRSTUVWXYZABCDEFGHIJKLMNOPQRSTUVWXYZ234567" "" true
    (Replied (ReplyNotOk 500 None)) (Executed ["TXID"]) 1700000000000 =
  (mkSubmitPage (Some subdomain_analysis)
     (Some (mkSubmitResult true (Some "TXID") (domainVal (submit_args subdomain_analysis 1700000000000))
              (scoreVal (submit_args subdomain_analysis 1700000000000)) "confirmed"
              (EXPLORER ++ js_text (Some "TXID"))))
     false false "" "1.2",
   Some (mkMethodCall APP_ID (submit_args subdomain_analysis 1700000000000)
           (js_or (Some "ABCDEFGHIJKLMNOPQRSTUVWXYZABCDEFGHIJKLMNOPQRSTUVWXYZ234567") "")
           (js_or (Some "ABCDEFGHIJKLMNOPQRSTUVWXYZABCDEFGHIJKLMNOPQRSTUVWXYZ234567") ""))).
Proof.
  split; [reflexivity|].
  apply (handle_submit_success (mkSubmitPage (Some subdomain_analysis) None false false "" "1.2")
           subdomain_analysis "ABCDEFGHIJKLMNOPQRSTUVWXYZABCDEFGHIJKLMNOPQRSTUVWXYZ234567" ""
           (ReplyNotOk 500 None) ["TXID"] 1700000000000 eq_refl).
  cbn. lia.
Defined.

(** X11: for any size of at least 12 the ring's circumference is
    non-negative, a score of 0 leaves the whole ring undrawn (offset =
    circumference) and a score of 100 draws all of it (offset 0); every
    score in [0, 100] gets an offset between 0 and the circumference, and
    when the size exceeds 12 a higher score always draws strictly more. *)
Theorem score_circle_offset : forall size, (12 <= size)%R ->
  (0 <= sc_circumference size)%R /\
  sc_offset 0 size = sc_circumference size /\
  sc_offset 100 size = 0%R /\
  (forall score, (0 <= score <= 100)%R ->
     (0 <= sc_offset score size <= sc_circumference size)%R) /\
  ((12 < size)%R -> forall s1 s2, (s1 < s2)%R -> (sc_offset s2 size < sc_offset s1 size)%R).
Proof.
  intros size Hs. unfold sc_offset.
  assert (Hc : (0 <= sc_circumference size)%R).
  { unfold sc_circumference, sc_radius. pose proof PI_RGT_0.
    apply Rmult_le_pos; [lra | unfold Rdiv; apply Rmult_le_pos; lra]. }
  split; [exact Hc|]. split; [unfold Rdiv; ring|]. split; [unfold Rdiv; field|].
  split.
  - intros score Hsc. set (c := sc_circumference size) in *.
    assert (H1 : (0 <= score / 100 * c)%R) by (unfold Rdiv; apply Rmult_le_pos; [apply Rmult_le_pos|]; lra).
    assert (H2 : (score / 100 * c <= 1 * c)%R) by (apply Rmult_le_compat_r; [exact Hc | unfold Rdiv; lra]).
    lra.
  - intros Hgt s1 s2 H12.
    assert (Hc' : (0 < sc_circumference size)%R).
    { unfold sc_circumference, sc_radius. pose proof PI_RGT_0.
      apply Rmult_lt_0_compat; [lra | unfold Rdiv; apply Rmult_lt_0_compat; lra]. }
    assert (H : (s1 / 100 * sc_circumference size < s2 / 100 * sc_circumference size)%R)
      by (apply Rmult_lt_compat_r; [exact Hc' | unfold Rdiv; lra]).
    lra.
Qed.

Lemma score_circle_offset_witness :
  (12 <= 120)%R /\
  (0 <= sc_circumference 120)%R /\
  sc_offset 0 120 = sc_circumference 120 /\
  sc_offset 100 120 = 0%R /\
  (forall score, (0 <= score <= 100)%R ->
     (0 <= sc_offset score 120 <= sc_circumference 120)%R) /\
  ((12 < 120)%R -> forall s1 s2, (s1 < s2)%R -> (sc_offset s2 120 < sc_offset s1 120)%R).
Proof. split; [lra | apply (score_circle_offset 120); lra]. Defined.





Definition bytes_ge (x y : string * R) : Prop := (snd y <= snd x)%R.

Definition same_bytes (v : R) (e : string * R) : bool :=
  if Req_dec_T (snd e) v then true else false.

Lemma insert_desc_perm : forall x l, Permutation (insert_desc x l) (x :: l).
Proof.
  intros x l. induction l as [|y l IH]; cbn [insert_desc]; [reflexivity|].
  destruct (Rlt_dec (snd y) (snd x)); [reflexivity|].
  eapply perm_trans; [apply perm_skip; exact IH | apply perm_swap].
Qed.

Lemma insert_desc_hd : forall y x l,
  HdRel bytes_ge y l -> bytes_ge y x -> HdRel bytes_ge y (insert_desc x l).
Proof.
  intros y x [|z l] Hl Hx; cbn [insert_desc]; [constructor; exact Hx|].
  destruct (Rlt_dec (snd z) (snd x)); constructor; [exact Hx|].
  inversion Hl; assumption.
Qed.

Lemma insert_desc_sorted : forall x l, Sorted bytes_ge l -> Sorted bytes_ge (insert_desc x l).
Proof.
  intros x l H. induction H as [|y l Hl IH Hy]; cbn [insert_desc].
  - constructor; constructor.
  - destruct (Rlt_dec (snd y) (snd x)) as [Hlt|Hge].
    + constructor; [constructor; assumption | constructor; unfold bytes_ge; lra].
    + constructor; [exact IH|]. apply insert_desc_hd; [exact Hy | unfold bytes_ge; lra].
Qed.

Lemma bytes_ge_trans : forall x y z, bytes_ge x y -> bytes_ge y z -> bytes_ge x z.
Proof. unfold bytes_ge. intros x y z H1 H2. lra. Qed.

Lemma filter_same_nil : forall v (l : list (string * R)),
  (forall z, In z l -> snd z <> v) -> filter (same_bytes v) l = [].
Proof.
  intros v l. induction l as [|z l IH]; intros H; cbn [filter]; [reflexivity|].
  unfold same_bytes at 1. destruct (Req_dec_T (snd z) v) as [E|E].
  - exfalso. apply (H z); [left; reflexivity | exact E].
  - apply IH. intros w Hw. apply H. right. exact Hw.
Qed.

Lemma insert_desc_filter : forall v x l, Sorted bytes_ge l ->
  filter (same_bytes v) (insert_desc x l) = (filter (same_bytes v) l ++ filter (same_bytes v) [x])%list.
Proof.
  intros v x l H. induction H as [|y l Hl IH Hy]; cbn [insert_desc]; [reflexivity|].
  destruct (Rlt_dec (snd y) (snd x)) as [Hlt|Hge].
  - assert (Hall : forall z, In z (y :: l) -> (snd z <= snd y)%R).
    { assert (Hs : StronglySorted bytes_ge (y :: l))
        by (apply Sorted_StronglySorted; [exact bytes_ge_trans | constructor; assumption]).
      inversion Hs as [|a' l' _ Hf]. rewrite Forall_forall in Hf.
      intros z [<-|Hz]; [lra|]. exact (Hf z Hz). }
    change (filter (same_bytes v) (x :: y :: l)) with
      (if same_bytes v x then x :: filter (same_bytes v) (y :: l) else filter (same_bytes v) (y :: l)).
    change (filter (same_bytes v) [x]) with (if same_bytes v x then [x] else []).
    destruct (same_bytes v x) eqn:Ex.
    + unfold same_bytes in Ex. destruct (Req_dec_T (snd x) v) as [E|E]; [|discriminate].
      rewrite (filter_same_nil v (y :: l)); [reflexivity|].
      intros z Hz. specialize (Hall z Hz). lra.
    + rewrite app_nil_r. reflexivity.
  - change (filter (same_bytes v) (y :: insert_desc x l)) with
      (if same_bytes v y then y :: filter (same_bytes v) (insert_desc x l)
       else filter (same_bytes v) (insert_desc x l)).
    change (filter (same_bytes v) (y :: l)) with
      (if same_bytes v y then y :: filter (same_bytes v) l else filter (same_bytes v) l).
    rewrite IH. destruct (same_bytes v y); reflexivity.
Qed.

Lemma sort_fold_spec : forall l acc, Sorted bytes_ge acc ->
  Permutation (fold_left (fun acc x => insert_desc x acc) l acc) (l ++ acc)%list /\
  Sorted bytes_ge (fold_left (fun acc x => insert_desc x acc) l acc) /\
  (forall v, filter (same_bytes v) (fold_left (fun acc x => insert_desc x acc) l acc) =
             (filter (same_bytes v) acc ++ filter (same_bytes v) l)%list).
Proof.
  intros l. induction l as [|x l IH]; intros acc Hacc; cbn [fold_left].
  - split; [reflexivity|]. split; [exact Hacc|]. intros v. rewrite app_nil_r. reflexivity.
  - destruct (IH (insert_desc x acc) (insert_desc_sorted x acc Hacc)) as [Hp [Hs Hf]].
    split; [|split; [exact Hs|]].
    + eapply perm_trans; [exact Hp|].
      eapply perm_trans; [apply Permutation_app_head; apply insert_desc_perm|].
      apply Permutation_sym. apply Permutation_middle.
    + intros v. rewrite Hf, insert_desc_filter by exact Hacc.
      rewrite <- app_assoc.
      change (filter (same_bytes v) (x :: l)) with
        (if same_bytes v x then x :: filter (same_bytes v) l else filter (same_bytes v) l).
      change (filter (same_bytes v) [x]) with (if same_bytes v x then [x] else []).
      destruct (same_bytes v x); reflexivity.
Qed.

(** X13: [langEntries.sort((a, b) => b[1] - a[1])] lists every language
    exactly once, in non-increasing order of bytes, and languages with the
    same byte count keep the order in which they were listed. *)
Theorem sort_desc_spec : forall l : list (string * R),
  Permutation (sort_desc l) l /\
  Sorted (fun x y => (snd y <= snd x)%R) (sort_desc l) /\
  (forall v, filter (fun e => if Req_dec_T (snd e) v then true else false) (sort_desc l) =
             filter (fun e => if Req_dec_T (snd e) v then true else false) l).
Proof.
  intros l. unfold sort_desc.
  destruct (sort_fold_spec l [] (Sorted_nil _)) as [Hp [Hs Hf]].
  split; [rewrite app_nil_r in Hp; exact Hp|]. split; [exact Hs|].
  intros v. exact (Hf v).
Qed.

Lemma leb_Int_part : forall b y,
  (b <=? Int_part y)%Z = if Rle_dec (IZR b) y then true else false.
Proof.
  intros b y. pose proof (base_Int_part y) as [H1 H2].
  destruct (Rle_dec (IZR b) y) as [H|H].
  - apply Z.leb_le. destruct (Z.le_gt_cases b (Int_part y)) as [|Hg]; [assumption|].
    exfalso. assert (Hz : (Int_part y + 1 <= b)%Z) by lia. apply IZR_le in Hz.
    rewrite plus_IZR in Hz. lra.
  - apply Z.leb_gt. apply lt_IZR. lra.
Qed.

Lemma explorer_tier_Int_part : forall y,
  explorer_tier (Int_part y) = Reputation.level_name (Reputation.level_of y).
Proof.
  intros y. unfold explorer_tier, Reputation.level_of. rewrite !leb_Int_part.
  destruct (Rle_dec (IZR 90) y); [reflexivity|].
  destruct (Rle_dec (IZR 70) y); [reflexivity|].
  destruct (Rle_dec (IZR 50) y); [reflexivity|].
  destruct (Rle_dec (IZR 30) y); reflexivity.
Qed.

(** X14: on ExplorerPage a profile whose total_reputation t is non-zero
    gets the tier of [Math.round(t)], which is the reputation engine's
    level of t + 0.5, not of t: the two agree exactly when t does not lie
    in one of the half-open windows [29.5, 30), [49.5, 50), [69.5, 70) or
    [89.5, 90), where the card shows the next higher tier. *)
Theorem explorer_tier_rounding : forall t cs, t <> 0%R ->
  explorer_tier (explorer_score (Some t) cs) =
    Reputation.level_name (Reputation.level_of (t + / 2)) /\
  (explorer_tier (explorer_score (Some t) cs) = Reputation.level_name (Reputation.level_of t) <->
   ~ ((30 - / 2 <= t < 30) \/ (50 - / 2 <= t < 50) \/ (70 - / 2 <= t < 70) \/ (90 - / 2 <= t < 90))%R).
Proof.
  intros t cs Ht.
  assert (E : explorer_tier (explorer_score (Some t) cs) =
              Reputation.level_name (Reputation.level_of (t + / 2))).
  { unfold explorer_score, num_or. destruct (Req_dec_T t 0) as [|_]; [contradiction|].
    apply explorer_tier_Int_part. }
  split; [exact E|]. rewrite E. unfold Reputation.level_of.
  destruct (Rle_dec 90 (t + / 2)); destruct (Rle_dec 90 t);
  try destruct (Rle_dec 70 (t + / 2)); try destruct (Rle_dec 70 t);
  try destruct (Rle_dec 50 (t + / 2)); try destruct (Rle_dec 50 t);
  try destruct (Rle_dec 30 (t + / 2)); try destruct (Rle_dec 30 t);
  cbn [Reputation.level_name]; split; intros H;
  first [ lra | discriminate | reflexivity
        | exfalso; apply H; lra
        | intros [?|[?|[?|?]]]; lra ].
Qed.

Lemma explorer_tier_rounding_witness :
  (179 / 2 <> 0)%R /\
  explorer_tier (explorer_score (Some (179 / 2)%R) None) =
    Reputation.level_name (Reputation.level_of (179 / 2 + / 2)) /\
  (explorer_tier (explorer_score (Some (179 / 2)%R) None) =
     Reputation.level_name (Reputation.level_of (179 / 2)) <->
   ~ ((30 - / 2 <= 179 / 2 < 30) \/ (50 - / 2 <= 179 / 2 < 50) \/
      (70 - / 2 <= 179 / 2 < 70) \/ (90 - / 2 <= 179 / 2 < 90))%R).
Proof. split; [lra | apply (explorer_tier_rounding (179 / 2)%R None); lra]. Defined.

Lemma long_wallet_chosen : forall w address walletInput,
  (58 <= String.length w)%nat ->
  wallet_rejected (chosen_wallet (Some w) address walletInput) = false /\
  chosen_wallet (Some w) address walletInput = w.
Proof.
  intros w address walletInput H.
  assert (Hne : w <> "") by (intros ->; cbn in H; lia).
  unfold chosen_wallet. rewrite FrontendProofs.js_or_nonempty by exact Hne.
  split; [|reflexivity]. rewrite wallet_rejected_length. apply Nat.ltb_ge. exact H.
Qed.

(** X15: the manual-wallet buttons (DashboardPage's handleManualLookup,
    VerifierPage's handleManualVerify, SubmitPage's handleSetWallet) do
    nothing for an input shorter than 58 characters; for a longer one they
    store it as the connected wallet (address and localStorage) and the
    dashboard and verifier fetch exactly that input's
    /reputation, /wallet and /verify URLs, whatever address was connected
    before. *)
Theorem manual_wallet_actions : forall RepData RecordData VerifyData ws
    (st : DashState RepData RecordData) (vs : VerifyState VerifyData) address walletInput f g,
  ((String.length walletInput < 58)%nat ->
     handle_manual_lookup RepData RecordData ws st address walletInput f = (ws, (st, [])) /\
     handle_manual_verify VerifyData ws vs address walletInput g = (ws, (vs, [])) /\
     handle_set_wallet ws walletInput = ws) /\
  ((58 <= String.length walletInput)%nat ->
     Wallet.address (Wallet.set_manual_wallet ws walletInput) = Some walletInput /\
     Wallet.connected (Wallet.set_manual_wallet ws walletInput) = true /\
     Wallet.storage (Wallet.set_manual_wallet ws walletInput) = Some walletInput /\
     fst (handle_manual_lookup RepData RecordData ws st address walletInput f) =
       Wallet.set_manual_wallet ws walletInput /\
     snd (snd (handle_manual_lookup RepData RecordData ws st address walletInput f)) =
       [API ++ "/reputation/" ++ walletInput; API ++ "/wallet/" ++ walletInput] /\
     fst (handle_manual_verify VerifyData ws vs address walletInput g) =
       Wallet.set_manual_wallet ws walletInput /\
     snd (snd (handle_manual_verify VerifyData ws vs address walletInput g)) =
       [API ++ "/verify/" ++ walletInput] /\
     handle_set_wallet ws walletInput = Wallet.set_manual_wallet ws walletInput).
Proof.
  intros RepData RecordData VerifyData ws st vs address walletInput f g.
  unfold handle_manual_lookup, handle_manual_verify, handle_set_wallet. split.
  - intros H. replace (58 <=? String.length walletInput)%nat with false
      by (symmetry; apply Nat.leb_gt; exact H).
    split; [reflexivity|]. split; reflexivity.
  - intros H. replace (58 <=? String.length walletInput)%nat with true
      by (symmetry; apply Nat.leb_le; exact H).
    destruct (long_wallet_chosen walletInput address walletInput H) as [Hr Hc].
    assert (Hne : walletInput <> "") by (intros ->; cbn in H; lia).
    unfold Wallet.set_manual_wallet. rewrite FrontendProofs.truthy_nonempty by exact Hne.
    cbn [fst snd Wallet.address Wallet.connected Wallet.storage].
    unfold handle_lookup, handle_verify. cbv zeta. rewrite Hr, Hc.
    split; [reflexivity|]. split; [reflexivity|]. split; [reflexivity|].
    split; [reflexivity|]. split; [destruct f as [[rep wal]|m]; reflexivity|].
    split; [reflexivity|]. split; [destruct g as [[v|sv det]|m]; try destruct v; reflexivity|].
    reflexivity.
Qed.

(** X16: VerifierPage's "Connect & Verify" fetches a verification only
    when the wallet returned a first account of at least 58 characters;
    it then verifies that account (at /verify/<account>) and the wallet
    state is connected to it; in every other case the verifier state is
    left untouched and nothing is fetched. *)
Theorem connect_and_verify : forall VerifyData ws (vs : VerifyState VerifyData) address walletInput o f,
  (forall a rest, o = Wallet.ConnectAccounts (a :: rest) -> (58 <= String.length a)%nat ->
     verifier_connect_verify VerifyData ws vs address walletInput o f =
       (Wallet.mkWalletState (Some a) true false true (Some a),
        handle_verify VerifyData vs (Some a) address walletInput f) /\
     snd (handle_verify VerifyData vs (Some a) address walletInput f) = [API ++ "/verify/" ++ a]) /\
  (snd (snd (verifier_connect_verify VerifyData ws vs address walletInput o f)) <> [] ->
     exists a rest, o = Wallet.ConnectAccounts (a :: rest) /\ (58 <= String.length a)%nat) /\
  (snd (snd (verifier_connect_verify VerifyData ws vs address walletInput o f)) = [] ->
     fst (snd (verifier_connect_verify VerifyData ws vs address walletInput o f)) = vs).
Proof.
  intros VerifyData ws vs address walletInput o f. split; [|split].
  - intros a rest -> H. destruct (long_wallet_chosen a address walletInput H) as [Hr Hc].
    assert (Hne : a <> "") by (intros ->; cbn in H; lia).
    unfold verifier_connect_verify. cbn [Wallet.connect_wallet hd_error Wallet.storage_text].
    rewrite FrontendProofs.truthy_nonempty by exact Hne.
    unfold handle_verify. cbv zeta.
    rewrite Hr, Hc. split; reflexivity.
  - unfold verifier_connect_verify.
    destruct o as [| |accounts]; cbn [Wallet.connect_wallet snd]; [intros H; contradiction | intros H; contradiction|].
    destruct accounts as [|a rest]; cbn [hd_error truthy];
      [intros H; contradiction|].
    destruct (string_dec a "") as [E|E]; [intros H; contradiction|].
    unfold handle_verify. cbv zeta.
    destruct (wallet_rejected (chosen_wallet (Some a) address walletInput)) eqn:Hw;
      [intros H; contradiction|].
    intros _. exists a, rest. split; [reflexivity|].
    unfold chosen_wallet in Hw. rewrite FrontendProofs.js_or_nonempty in Hw by exact E.
    rewrite wallet_rejected_length in Hw. apply Nat.ltb_ge. exact Hw.
  - unfold verifier_connect_verify.
    destruct o as [| |accounts]; cbn [Wallet.connect_wallet snd fst]; [intros _; reflexivity | intros _; reflexivity|].
    destruct accounts as [|a rest]; cbn [hd_error truthy]; [intros _; reflexivity|].
    destruct (string_dec a "") as [E|E]; [intros _; reflexivity|].
    unfold handle_verify. cbv zeta.
    destruct (wallet_rejected (chosen_wallet (Some a) address walletInput)) eqn:Hw;
      [intros _; reflexivity|].
    intros H. discriminate.
Qed.

End PagesProofs.
